(** * Register catalog, codec and port remap of the USB hub driver

    A shallow embedding of [capablerobot_usbhub/__init__.py]: Python
    exceptions become an error monad, dictionaries become association
    lists in insertion order, and the objects the driver mutates live in an
    explicit store. *)

From Stdlib Require Import ZArith List String Ascii Bool Lia Permutation Sorted.
From Stdlib Require Import DecimalString HexadecimalString.
Import ListNotations.

Open Scope string_scope.
Open Scope Z_scope.

(** ** Exceptions and the error monad *)

(** The texts of the [ValueError]s the driver raises, with their arguments. *)
Inductive message : Type :=
| UnknownRegisterAddress (register : Z)
| UnknownRegisterName (name : string)
| RegisterHasBits (name : string) (bits : Z)
| MustSpecifyNameOrAddress
| IncorrectDataLength
| InvalidLiteral (s : string).

Inductive exn : Type :=
| ValueError (m : message)
| KeyError
| IndexError
| TypeError
| AttributeError
| UnboundLocalError
| StructError
| StreamError
| ReferenceError
| USBError.

Inductive result (A : Type) : Type :=
| Ok (a : A)
| Raise (e : exn).

Arguments Ok {A} a.
Arguments Raise {A} e.

Definition bind {A B : Type} (m : result A) (k : A -> result B) : result B :=
  match m with
  | Ok a => k a
  | Raise e => Raise e
  end.

Declare Scope py_scope.
Delimit Scope py_scope with py.
Notation "x <- m ;; k" := (bind m (fun x => k))
  (at level 61, m at next level, right associativity) : py_scope.
Notation "' p <- m ;; k" := (bind m (fun x => let p := x in k))
  (at level 61, p pattern, m at next level, right associativity) : py_scope.
Open Scope py_scope.

Fixpoint mapM {A B : Type} (f : A -> result B) (l : list A) : result (list B) :=
  match l with
  | [] => Ok []
  | a :: l' => b <- f a ;; bs <- mapM f l' ;; Ok (b :: bs)
  end.

(** ** Python strings, lists and integers *)

Definition startswith (s prefix : string) : bool := String.prefix prefix s.

(** [s.replace(old, new)] for a non-empty [old] (the driver only passes the
    constants "port", "b" and "usb4715_"): a left-to-right scan replacing
    every non-overlapping occurrence. *)
Fixpoint replace_from (old new : string) (skip : nat) (s : string) : string :=
  match s with
  | EmptyString => EmptyString
  | String c s' =>
      match skip with
      | S k => replace_from old new k s'
      | O =>
          if String.prefix old s
          then new ++ replace_from old new (Nat.pred (String.length old)) s'
          else String c (replace_from old new O s')
      end
  end.

Definition replace (s old new : string) : string := replace_from old new O s.

(** [s.split(sep)] for a non-empty [sep]. *)
Fixpoint split_from (sep : string) (skip : nat) (cur s : string) : list string :=
  match s with
  | EmptyString => [cur]
  | String c s' =>
      match skip with
      | S k => split_from sep k cur s'
      | O =>
          if String.prefix sep s
          then cur :: split_from sep (Nat.pred (String.length sep)) "" s'
          else split_from sep O (cur ++ String c "") s'
      end
  end.

Definition split (s sep : string) : list string := split_from sep O "" s.

Definition digit_of (c : ascii) : option Z :=
  let n := Z.of_N (N_of_ascii c) in
  if (48 <=? n) && (n <=? 57) then Some (n - 48) else None.

(** The blanks [int()] strips from both ends of its argument. *)
Definition is_space (c : ascii) : bool :=
  let n := N_of_ascii c in
  ((N.leb 9 n && N.leb n 13) || (N.leb 28 n && N.leb n 32))%bool.

Fixpoint lstrip (s : string) : string :=
  match s with
  | EmptyString => EmptyString
  | String c s' => if is_space c then lstrip s' else s
  end.

Fixpoint rstrip (s : string) : string :=
  match s with
  | EmptyString => EmptyString
  | String c s' =>
      match rstrip s' with
      | EmptyString => if is_space c then EmptyString else String c EmptyString
      | r => String c r
      end
  end.

(** The digits of [int()]: at least one, with single underscores allowed
    between two digits.  [after_digit] tells whether the character before
    was a digit. *)
Fixpoint int_digits (acc : Z) (after_digit : bool) (s : string) : option Z :=
  match s with
  | EmptyString => if after_digit then Some acc else None
  | String c s' =>
      match digit_of c with
      | Some d => int_digits (10 * acc + d) true s'
      | None =>
          if (Ascii.eqb c "_" && after_digit)%bool
          then int_digits acc false s'
          else None
      end
  end.

(** [int(s)] in base 10 on ASCII text: blanks around the number, an
    optional sign, then the digits; anything else raises [ValueError].
    (The digits and blanks outside ASCII that Python also reads, and the
    limit recent versions put on the number of digits, are left out.) *)
Definition int_of_str (s : string) : result Z :=
  let text := rstrip (lstrip s) in
  let value :=
    match text with
    | String c rest =>
        if Ascii.eqb c "+" then int_digits 0 false rest
        else if Ascii.eqb c "-" then option_map Z.opp (int_digits 0 false rest)
        else int_digits 0 false text
    | EmptyString => None
    end in
  match value with
  | Some z => Ok z
  | None => Raise (ValueError (InvalidLiteral s))
  end.

(** [l[i]] with Python's negative indices. *)
Definition list_getitem {A : Type} (l : list A) (i : Z) : result A :=
  let n := Z.of_nat (List.length l) in
  let j := if i <? 0 then n + i else i in
  if (0 <=? j) && (j <? n)
  then match nth_error l (Z.to_nat j) with
       | Some a => Ok a
       | None => Raise IndexError
       end
  else Raise IndexError.

Definition sum (l : list Z) : Z := fold_left Z.add l 0.

(** [~b] on a Python [bool]: the bitwise complement of the integer 0 or 1. *)
Definition invert_bool (b : bool) : Z := Z.lnot (if b then 1 else 0).

(** Truth value of a Python [int]. *)
Definition truthy (z : Z) : bool := negb (z =? 0).

(** ** Dictionaries: association lists in insertion order *)

Section Dict.
Context {K V : Type} (eqb : K -> K -> bool).

Fixpoint dict_get (d : list (K * V)) (k : K) : option V :=
  match d with
  | [] => None
  | (k', v) :: d' => if eqb k' k then Some v else dict_get d' k
  end.

(** [d[k] = v]: an existing key keeps its place, a new one goes last. *)
Fixpoint dict_set (d : list (K * V)) (k : K) (v : V) : list (K * V) :=
  match d with
  | [] => [(k, v)]
  | (k', v') :: d' =>
      if eqb k' k then (k', v) :: d' else (k', v') :: dict_set d' k v
  end.

(** [d[k]] *)
Definition dict_getitem (d : list (K * V)) (k : K) : result V :=
  match dict_get d k with
  | Some v => Ok v
  | None => Raise KeyError
  end.

(** [k in d] *)
Definition dict_contains (d : list (K * V)) (k : K) : bool :=
  match dict_get d k with
  | Some _ => true
  | None => false
  end.
End Dict.

Definition keys {K V : Type} (d : list (K * V)) : list K := map fst d.

(** [key in l] for a list of strings. *)
Definition str_in (key : string) (l : list string) : bool :=
  existsb (String.eqb key) l.

(** ** Module constants *)

Definition ADDR_USC12 : Z := 0x57.
Definition ADDR_USC34 : Z := 0x56.
Definition UCS2113_CURRENT_LIMIT : Z := 0x14.

Definition UCS2113_CURRENT_MAP : list Z :=
  [530; 960; 1070; 1280; 1600; 2130; 2670; 3200].

Definition PORT_MAP : list string := ["port2"; "port4"; "port1"; "port3"].

Definition REGISTER_NEEDS_PORT_REMAP : list string :=
  ["port::connection"; "port::device_speed"].

(** [usb.util.build_request_type(CTRL_IN, CTRL_TYPE_VENDOR,
    CTRL_RECIPIENT_DEVICE)]: direction 0x80, type 0x40, recipient 0. *)
Definition REQ_IN : Z := Z.lor (Z.lor 0 0x40) 0x80.

Definition CMD_REG_READ : Z := 0x04.
Definition REG_BASE_DFT : Z := 0xBF800000.

(** ** The register definitions loaded from the .ksy documents

    Only the parts [__init__] reads: a document has [types], a type has a
    [seq] of fields and possibly [meta]; the [type] of a field is either a
    string or the switch of the register enum with its [cases]. *)

Inductive field_type : Type :=
| TypeName (s : string)
| TypeSwitch (cases : list (Z * string)).

Record field : Type := { f_id : string; f_type : field_type }.

Record type_def : Type :=
  { seq : list field; meta : option (list (string * string)) }.

Record document : Type := { types : list (string * type_def) }.

Definition definition : Type := list (string * document).

(** An entry of [self.mapping]: [[address, bits, endian]]. *)
Definition entry : Type := (Z * Z * string)%type.
Definition catalog : Type := list (string * entry).

Definition get_register_length (def : definition) (key : string) : result Z :=
  let key := split key "::" in
  k0 <- list_getitem key 0 ;;
  doc <- dict_getitem String.eqb def k0 ;;
  k1 <- list_getitem key 1 ;;
  td <- dict_getitem String.eqb (types doc) k1 ;;
  widths <- mapM (fun v =>
                    match f_type v with
                    | TypeName s => int_of_str (replace s "b" "")
                    | TypeSwitch _ => Raise AttributeError
                    end) (seq td) ;;
  Ok (sum widths).

Definition get_register_endian (def : definition) (key : string) : result string :=
  let key := split key "::" in
  k0 <- list_getitem key 0 ;;
  doc <- dict_getitem String.eqb def k0 ;;
  k1 <- list_getitem key 1 ;;
  obj <- dict_getitem String.eqb (types doc) k1 ;;
  match meta obj with
  | Some m =>
      match dict_get String.eqb m "endian" with
      | Some value => if String.eqb value "le" then Ok "little" else Ok "big"
      | None => Ok "big"
      end
  | None => Ok "big"
  end.

(** [{v:k for k,v in mapping.items()}] *)
Definition invert (cases : list (Z * string)) : list (string * Z) :=
  fold_left (fun acc kv => dict_set String.eqb acc (snd kv) (fst kv)) cases [].

(** The dictionary comprehension of [__init__] that fills [self.mapping],
    run over the items still to visit. *)
Fixpoint build_entries (def : definition) (items : list (string * Z))
    (acc : catalog) : result catalog :=
  match items with
  | [] => Ok acc
  | (k, v) :: rest =>
      bits <- get_register_length def k ;;
      endian <- get_register_endian def k ;;
      build_entries def rest
        (dict_set String.eqb acc (replace k "usb4715_" "") (v, bits, endian))
  end.

(** [self.definition['usb4715']['types']['register']['seq'][-1]['type']['cases']]:
    the table from addresses to names; a string has no item ['cases']. *)
Definition register_cases (def : definition) : result (list (Z * string)) :=
  doc <- dict_getitem String.eqb def "usb4715" ;;
  reg <- dict_getitem String.eqb (types doc) "register" ;;
  last <- list_getitem (seq reg) (-1) ;;
  match f_type last with
  | TypeSwitch cases => Ok cases
  | TypeName _ => Raise TypeError
  end.

(** The part of [USBHub.__init__] that builds [self.mapping] from
    [self.definition] (lines 133-135). *)
Definition build_mapping (def : definition) : result catalog :=
  mapping <- register_cases def ;;
  build_entries def (invert mapping) [].

Fixpoint find_name (mapping : catalog) (register : Z) : result string :=
  match mapping with
  | [] => Raise (ValueError (UnknownRegisterAddress register))
  | (name, (address, _, _)) :: rest =>
      if address =? register then Ok name else find_name rest register
  end.

Definition find (mapping : catalog) (name : string) : result entry :=
  if dict_contains String.eqb mapping name then
    '(register, bits, endian) <- dict_getitem String.eqb mapping name ;;
    if existsb (Z.eqb bits) [8; 16; 24; 32]
    then Ok (register, bits, endian)
    else Raise (ValueError (RegisterHasBits name bits))
  else Raise (ValueError (UnknownRegisterName name)).

(** ** The byte stream handed to the register parser *)

(** [n] bytes of [v], most significant first. *)
Fixpoint be_bytes (n : nat) (v : Z) : list Z :=
  match n with
  | O => []
  | S k => Z.land (Z.shiftr v (8 * Z.of_nat k)) 0xFF :: be_bytes k v
  end.

(** One unsigned field of [struct.pack] in standard size, big-endian:
    out-of-range arguments raise [struct.error]. *)
Definition pack_unsigned (size : nat) (v : Z) : result (list Z) :=
  if (0 <=? v) && (v <? 2 ^ (8 * Z.of_nat size))
  then Ok (be_bytes size v)
  else Raise StructError.

Definition code_size (code : string) : result nat :=
  if String.eqb code "B" then Ok 1%nat
  else if String.eqb code "H" then Ok 2%nat
  else if String.eqb code "L" then Ok 4%nat
  else Raise StructError.

(** [struct.pack(">HB" + code, address, num, value)] *)
Definition struct_pack_HB (code : string) (address num value : Z)
  : result (list Z) :=
  size <- code_size code ;;
  a <- pack_unsigned 2 address ;;
  n <- pack_unsigned 1 num ;;
  v <- pack_unsigned size value ;;
  Ok (a ++ n ++ v)%list.

(** Modelled from the spec: [bits_to_bytes] of the [util] module, which is
    not among the sources; the stream carries a "1-byte length-in-bytes". *)
Definition bits_to_bytes (bits : Z) : Z := bits / 8.

(** Lines 210-228 of [register_read]: the choice of the pack code and of
    the shift by the width, and the packing of the stream.  A width the
    chain of tests does not name leaves [code] unbound. *)
Definition encode_stream (address bits value : Z) : result (list Z) :=
  let shift := if bits =? 24 then 8 else 0 in
  let code :=
    if bits =? 8 then Some "B"
    else if bits =? 16 then Some "H"
    else if bits =? 24 then Some "L"
    else if bits =? 32 then Some "L"
    else None in
  let num := bits_to_bytes bits in
  match code with
  | Some code => struct_pack_HB code address num (Z.shiftl value shift)
  | None => Raise UnboundLocalError
  end.

(** A parsed register: [addr], [len] and the [body] of named fields. *)
Record DecodedRegister : Type :=
  { addr : Z; len : Z; body : list (string * Z) }.

(** The integer a list of bytes spells, most significant byte first. *)
Definition from_be (bytes : list Z) : Z :=
  fold_left (fun acc b => acc * 256 + b) bytes 0.

(** Modelled from the spec: the field layout of a register type, as the
    decoder uses it, a sequence of field names with their widths in bits. *)
Definition layout : Type := list (string * Z).

(** Modelled from the spec: the split of the [bits] low bits of [value] into
    the fields of a layout, first field in the most significant bits, each
    an unsigned integer of its declared width. *)
Fixpoint split_fields (seq : layout) (bits value : Z) : list (string * Z) :=
  match seq with
  | [] => []
  | (name, w) :: rest =>
      (name, Z.land (Z.shiftr value (bits - w)) (Z.ones w))
        :: split_fields rest (bits - w) value
  end.

Definition layout_bits (seq : layout) : Z := sum (map snd seq).

(** Modelled from the spec: [registers.parse(stream)[0]] of the [registers]
    module, which is not among the sources.  The stream starts with a 2-byte
    big-endian address and a 1-byte length; the body that follows is read
    with the layout registered for that address, over as many bytes as the
    layout has bits; a shorter stream is the parser's own [StreamError]. *)
Definition registers_parse_model (layouts : list (Z * layout)) (stream : list Z)
  : result DecodedRegister :=
  match stream with
  | a1 :: a0 :: n :: rest =>
      let address := from_be [a1; a0] in
      seq <- dict_getitem Z.eqb layouts address ;;
      let bits := layout_bits seq in
      let nbytes := Z.to_nat (bits / 8) in
      if (Nat.leb nbytes (List.length rest)) && (bits mod 8 =? 0)
      then Ok {| addr := address; len := n;
                 body := split_fields seq bits (from_be (firstn nbytes rest)) |}
      else Raise StreamError
  | _ => Raise StreamError
  end.

(** The value a body spells under a layout: its fields put back side by
    side, first field in the most significant bits. *)
Fixpoint join_fields (seq : layout) (fields : list (string * Z)) (acc : Z)
  : result Z :=
  match seq with
  | [] => Ok acc
  | (name, w) :: rest =>
      v <- dict_getitem String.eqb fields name ;;
      join_fields rest fields (Z.lor (Z.shiftl acc w) v)
  end.

(** ** The store of parsed registers *)

Definition ref : Type := nat.
Definition heap : Type := list DecodedRegister.

(** Computations that may raise and that read and update the store. *)
Definition M (A : Type) : Type := heap -> result (A * heap).

Definition ret {A : Type} (a : A) : M A := fun h => Ok (a, h).

Definition raise {A : Type} (e : exn) : M A := fun _ => Raise e.

Definition bindM {A B : Type} (m : M A) (k : A -> M B) : M B :=
  fun h => match m h with
           | Ok (a, h') => k a h'
           | Raise e => Raise e
           end.

Definition lift {A : Type} (r : result A) : M A :=
  fun h => match r with
           | Ok a => Ok (a, h)
           | Raise e => Raise e
           end.

Declare Scope heap_scope.
Delimit Scope heap_scope with heap.
Notation "x <- m ;; k" := (bindM m (fun x => k))
  (at level 61, m at next level, right associativity) : heap_scope.
Notation "' p <- m ;; k" := (bindM m (fun x => let p := x in k))
  (at level 61, p pattern, m at next level, right associativity) : heap_scope.
Notation "m ;;; k" := (bindM m (fun _ => k))
  (at level 61, right associativity) : heap_scope.

(** A new object, at the next free reference. *)
Definition alloc (o : DecodedRegister) : M ref :=
  fun h => Ok (List.length h, (h ++ [o])%list).

(** The object behind a reference ([ReferenceError] stands for a reference
    the store does not hold, which no Python program can make). *)
Definition load (r : ref) : M DecodedRegister :=
  fun h => match nth_error h r with
           | Some o => Ok (o, h)
           | None => Raise ReferenceError
           end.

Fixpoint update (h : heap) (r : ref) (o : DecodedRegister) : heap :=
  match h, r with
  | [], _ => []
  | _ :: h', O => o :: h'
  | o' :: h', S r' => o' :: update h' r' o
  end.

(** [r.body[key] = value] *)
Definition body_setitem (r : ref) (key : string) (value : Z) : M unit :=
  fun h => match nth_error h r with
           | Some o =>
               Ok (tt, update h r {| addr := addr o; len := len o;
                                     body := dict_set String.eqb (body o) key value |})
           | None => Raise ReferenceError
           end.

(** [copy.deepcopy(r)]: the fields are strings and integers, so the copy is
    a new object with an equal [addr], [len] and [body]. *)
Definition deepcopy (r : ref) : M ref :=
  (o <- load r ;; alloc o)%heap.

(** [PORT_MAP[int(key.replace("port",""))-1]] *)
Definition port_of (key : string) : result string :=
  n <- int_of_str (replace key "port" "") ;;
  list_getitem PORT_MAP (n - 1).

(** The loop of [parse_register] over the items of [raw.body]. *)
Fixpoint remap_items (items : list (string * Z)) (parsed : ref) : M unit :=
  match items with
  | [] => ret tt
  | (key, value) :: rest =>
      ((if str_in key PORT_MAP
        then port <- lift (port_of key) ;;
             body_setitem parsed port value
        else ret tt) ;;;
       remap_items rest parsed)%heap
  end.

(** Lines 267-273 of [parse_register]: the remap of the object [parsed]. *)
Definition port_remap (name : string) (parsed : ref) : M unit :=
  if str_in name REGISTER_NEEDS_PORT_REMAP
  then (raw <- deepcopy parsed ;;
        o <- load raw ;;
        remap_items (body o) parsed)%heap
  else ret tt.

(** ** The visible field names *)

(** [sorted] on strings: a stable insertion sort by code points. *)
Fixpoint insert_sorted (k : string) (l : list string) : list string :=
  match l with
  | [] => [k]
  | x :: l' => if String.leb k x then k :: l else x :: insert_sorted k l'
  end.

Definition sorted (l : list string) : list string :=
  fold_right insert_sorted [] l.

(** [key[0]] *)
Definition str_first (key : string) : result ascii :=
  match key with
  | EmptyString => Raise IndexError
  | String c _ => Ok c
  end.

Fixpoint filterM {A : Type} (f : A -> result bool) (l : list A)
  : result (list A) :=
  match l with
  | [] => Ok []
  | a :: l' =>
      keep <- f a ;;
      rest <- filterM f l' ;;
      Ok (if keep then a :: rest else rest)
  end.

(** [register_keys(parsed, sort)].  The lambda is
    [key[0] != '_' and ~key.startswith("reserved")]; [filter] keeps the keys
    on which it is true.  With [sort=False] the name [keys] is never bound. *)
Definition register_keys (parsed : DecodedRegister) (sort : bool)
  : result (list string) :=
  keys <- (if sort then Ok (sorted (keys (body parsed)))
           else Raise UnboundLocalError) ;;
  filterM (fun key =>
             c <- str_first key ;;
             Ok (if negb (Ascii.eqb c "_")
                 then truthy (invert_bool (startswith key "reserved"))
                 else false)) keys.

(** ** The driver, over its collaborators *)

Fixpoint foldM {A B : Type} (f : B -> A -> result B) (l : list A) (acc : B)
  : result B :=
  match l with
  | [] => Ok acc
  | a :: l' => acc' <- f acc a ;; foldM f l' acc'
  end.

Section Driver.
(** [self.mapping] *)
Variable mapping : catalog.
(** [self.dev.ctrl_transfer(request_type, request, value, index, length)] *)
Variable ctrl_transfer : Z -> Z -> Z -> Z -> Z -> result (list Z).
(** [int_from_bytes(data, endian)] of the [util] module *)
Variable int_from_bytes : list Z -> string -> result Z.
(** [registers.parse(stream)[0]] of the [registers] module *)
Variable registers_parse : list Z -> result DecodedRegister.
(** [self.i2c.read_i2c_block_data(i2c_addr, reg_addr)] *)
Variable read_i2c_block_data : Z -> Z -> result (list Z).

Definition parse_register (name : string) (stream : list Z) : M ref :=
  (o <- lift (registers_parse stream) ;;
   parsed <- alloc o ;;
   port_remap name parsed ;;;
   ret parsed)%heap.

(** [register_read(name, addr, length)] with [print=False].  A read by
    address binds neither [address] nor [bits], so it ends at the first
    test of [bits]; [find_name(None)] ends in [hex(None)]. *)
Definition register_read (name : option string) (addr : option Z)
    (length : Z) : M (list Z * ref) :=
  ('(name, found, addr, length) <-
      lift (match name with
            | Some name =>
                '(address, bits, endian) <- find mapping name ;;
                Ok (name, Some (address, bits, endian),
                    Some (address + REG_BASE_DFT), bits / 8)
            | None =>
                match addr with
                | Some a =>
                    name <- find_name mapping a ;;
                    Ok (name, None, addr, length)
                | None => Raise TypeError
                end
            end)%py ;;
   match addr with
   | None => raise (ValueError MustSpecifyNameOrAddress)
   | Some addr =>
       let value := Z.land addr 0xFFFF in
       let index := Z.shiftr addr 16 in
       data <- lift (ctrl_transfer REQ_IN CMD_REG_READ value index length) ;;
       if negb (length =? Z.of_nat (List.length data))
       then raise (ValueError IncorrectDataLength)
       else
         match found with
         | None => raise UnboundLocalError
         | Some (address, bits, endian) =>
             value <- lift (int_from_bytes data endian) ;;
             stream <- lift (encode_stream address bits value) ;;
             parsed <- parse_register name stream ;;
             ret (rev data, parsed)
         end
   end)%heap.

Definition connections : M (list bool) :=
  ('(_, conn) <- register_read (Some "port::connection") None 1 ;;
   conn <- load conn ;;
   lift (keys <- register_keys conn true ;;
         mapM (fun key =>
                 v <- dict_getitem String.eqb (body conn) key ;;
                 Ok (v =? 1)) keys)%py)%heap.

Definition speeds : M (list string) :=
  ('(_, speed) <- register_read (Some "port::device_speed") None 1 ;;
   speed <- load speed ;;
   let speeds := ["none"; "low"; "full"; "high"] in
   lift (keys <- register_keys speed true ;;
         mapM (fun key =>
                 code <- dict_getitem String.eqb (body speed) key ;;
                 list_getitem speeds code) keys)%py)%heap.

Definition current_limits : result (list Z) :=
  let reg_addr := UCS2113_CURRENT_LIMIT in
  out <- foldM (fun out i2c_addr =>
                  block <- read_i2c_block_data i2c_addr reg_addr ;;
                  value <- list_getitem block 0 ;;
                  Ok (out ++ [Z.land value 7; Z.land (Z.shiftr value 3) 7])%list)
               [ADDR_USC12; ADDR_USC34] [] ;;
  mapM (list_getitem UCS2113_CURRENT_MAP) out.
End Driver.

(** ** Reference models and sample devices *)

(** Modelled from the spec: [int_from_bytes] of the [util] module, which is
    not among the sources; the bytes are read in the byte order declared
    for the register. *)
Definition int_from_bytes_model (data : list Z) (endian : string) : result Z :=
  if String.eqb endian "little" then Ok (from_be (rev data))
  else Ok (from_be data).

(** The raw names [port1]..[port4] beside the names [PORT_MAP] gives them. *)
Definition wiring : list (string * string) :=
  combine ["port1"; "port2"; "port3"; "port4"] PORT_MAP.

Module Sample.
(** The body of the field-filter example. *)
Definition filter_register : DecodedRegister :=
  {| addr := 0; len := 1;
     body := [("a", 1); ("reserved_b", 2); ("_c", 3); ("d", 4)] |}.

(** A decoded [port::connection] register. *)
Definition connection_register : DecodedRegister :=
  {| addr := 0x3194; len := 1;
     body := [("port1", 1); ("port2", 0); ("port3", 1); ("port4", 0)] |}.

Definition bits_field (name : string) (width : string) : field :=
  {| f_id := name; f_type := TypeName width |}.

(** Register definitions with a 12-bit and an 8-bit register. *)
Definition documents : definition :=
  [("usb4715",
    {| types :=
         [("register",
           {| seq := [ {| f_id := "addr"; f_type := TypeName "u2" |};
                       {| f_id := "len"; f_type := TypeName "u1" |};
                       {| f_id := "body";
                          f_type := TypeSwitch
                                      [(0x3000, "usb4715_main::odd");
                                       (0x3104, "usb4715_port::device_speed")] |} ];
              meta := None |})] |});
   ("usb4715_main",
    {| types :=
         [("odd", {| seq := [bits_field "a" "b4"; bits_field "b" "b8"];
                     meta := Some [("endian", "le")] |})] |});
   ("usb4715_port",
    {| types :=
         [("device_speed",
           {| seq := [bits_field "port4" "b2"; bits_field "port3" "b2";
                      bits_field "port2" "b2"; bits_field "port1" "b2"];
              meta := None |})] |})].

(** A catalog with a 16-bit and an 8-bit register. *)
Definition mapping : catalog :=
  [("main::vendor_id", (0x3000, 16, "little"));
   ("port::device_speed", (0x3104, 8, "big"))].

Definition layouts : list (Z * layout) :=
  [(0x3000, [("vendor_id", 16)]);
   (0x30FA, [("mode", 4); ("threshold", 12); ("reserved", 8)]);
   (0x3104, [("port4", 2); ("port3", 2); ("port2", 2); ("port1", 2)])].

(** A device whose speed register reads 0b01111000: port4=1, port3=3,
    port2=2, port1=0. *)
Definition speed_device (request_type request value index length : Z)
  : result (list Z) := Ok [0x78].

(** A device that answers every read with the single byte 0x12. *)
Definition short_device (request_type request value index length : Z)
  : result (list Z) := Ok [0x12].

(** Current-limit chips holding 0xFF and 0x0A. *)
Definition limit_chips (i2c_addr reg_addr : Z) : result (list Z) :=
  if i2c_addr =? ADDR_USC12 then Ok [0xFF] else Ok [0x0A].
End Sample.

(** The widths [find] lets through. *)
Definition supported_width (bits : Z) : Prop := In bits [8; 16; 24; 32].

(** The integers a dictionary holds under [g], in the order of its items. *)
Definition held {K V : Type} (g : V -> Z) (d : list (K * V)) : list Z :=
  map (fun p => g (snd p)) d.

(** The address of a catalog entry. *)
Definition entry_address (e : entry) : Z := fst (fst e).

(** What the loop of [parse_register] makes of the body [b] of [parsed]
    when it runs over [items]. *)
Fixpoint remap_body (items b : list (string * Z)) : list (string * Z) :=
  match items with
  | [] => b
  | (key, value) :: rest =>
      remap_body rest
        (if str_in key PORT_MAP
         then match port_of key with
              | Ok port => dict_set String.eqb b port value
              | Raise _ => b
              end
         else b)
  end.

(** The object [o] with another body. *)
Definition with_body (o : DecodedRegister) (b : list (string * Z))
  : DecodedRegister :=
  {| addr := addr o; len := len o; body := b |}.

(** The raw speed codes of the example: port1=0, port2=2, port3=3, port4=1. *)
Definition raw_speed_codes : list (string * Z) :=
  [("port1", 0); ("port2", 2); ("port3", 3); ("port4", 1)].

(** The error of the length test of [register_read]. *)
Definition length_mismatch {A : Type} (r : result A) : Prop :=
  r = Raise (ValueError IncorrectDataLength).

(** The value bytes as the spec words them: one byte for 8 bits, two for
    16 and four for 32, most significant first, and for 24 bits the value
    shifted left by 8 bits as a 4-byte quantity. *)
Definition value_bytes (bits v : Z) : list Z :=
  if bits =? 24 then be_bytes 4 (Z.shiftl v 8)
  else be_bytes (Z.to_nat (bits / 8)) v.

(** ** More of the driver: bit helpers, alerts and printing *)

Definition UCS2113_PORT_STATUS : Z := 0x02.
Definition UCS2113_INTERRUPT1 : Z := 0x03.
Definition UCS2113_INTERRUPT2 : Z := 0x04.

(** [1<<bit].  A negative [bit] is Python's [ValueError: negative shift
    count]; the text of that error is carried by [InvalidLiteral]. *)
Definition shift_one (bit : Z) : result Z :=
  if bit <? 0 then Raise (ValueError (InvalidLiteral "negative shift count"))
  else Ok (Z.shiftl 1 bit).

Definition set_bit (value bit : Z) : result Z :=
  mask <- shift_one bit ;; Ok (Z.lor value mask).

Definition clear_bit (value bit : Z) : result Z :=
  mask <- shift_one bit ;; Ok (Z.land value (Z.lnot mask)).

Definition get_bit (value bit : Z) : result bool :=
  mask <- shift_one bit ;; Ok (Z.land value mask >? 0).

(** [str(n)] of an integer. *)
Definition str_of_int (n : Z) : string :=
  DecimalString.NilZero.string_of_int (Z.to_int n).

(** ["NAME.{}".format(n)], [text] being the part before the braces. *)
Definition format_int (text : string) (n : Z) : string :=
  text ++ str_of_int n.

(** [if c: out.append(s)] *)
Definition append_if (c : bool) (s : string) (out : list string) : list string :=
  if c then (out ++ [s])%list else out.

Section Alerts.
Variable read_i2c_block_data : Z -> Z -> result (list Z).

(** The body of the loop of [current_alerts] for the chip number [idx]. *)
Definition chip_alerts (out : list string) (chip : Z * Z)
  : result (list string) :=
  let '(idx, i2c_addr) := chip in
  block <- read_i2c_block_data i2c_addr UCS2113_PORT_STATUS ;;
  value <- list_getitem block 0 ;;
  b <- get_bit value 7 ;;
  let out := append_if b (format_int "ALERT." (idx * 2 + 1)) out in
  b <- get_bit value 6 ;;
  let out := append_if b (format_int "ALERT." (idx * 2 + 2)) out in
  b <- get_bit value 5 ;;
  let out := append_if b (format_int "CC_MODE." (idx * 2 + 1)) out in
  b <- get_bit value 4 ;;
  let out := append_if b (format_int "CC_MODE." (idx * 2 + 2)) out in
  block <- read_i2c_block_data i2c_addr UCS2113_INTERRUPT1 ;;
  value <- list_getitem block 0 ;;
  b <- get_bit value 7 ;;
  let out := append_if b (format_int "ERROR." (idx * 2 + 1)) out in
  b <- get_bit value 6 ;;
  let out := append_if b (format_int "DISCHARGE." (idx * 2 + 1)) out in
  b <- get_bit value 5 ;;
  let out := append_if b (if idx =? 0 then "RESET.12" else "RESET.34") out in
  b <- get_bit value 4 ;;
  let out := append_if b (format_int "KEEP_OUT." (idx * 2 + 1)) out in
  b <- get_bit value 3 ;;
  let out := append_if b (if idx =? 0 then "DIE_TEMP_HIGH.12"
                          else "DIE_TEMP_HIGH.34") out in
  b <- get_bit value 2 ;;
  let out := append_if b (if idx =? 0 then "OVER_VOLT.12" else "OVER_VOLT.34")
               out in
  b <- get_bit value 1 ;;
  let out := append_if b (format_int "BACK_BIAS." (idx * 2 + 1)) out in
  b <- get_bit value 0 ;;
  let out := append_if b (format_int "OVER_LIMIT." (idx * 2 + 1)) out in
  block <- read_i2c_block_data i2c_addr UCS2113_INTERRUPT2 ;;
  value <- list_getitem block 0 ;;
  b <- get_bit value 7 ;;
  let out := append_if b (format_int "ERROR." (idx * 2 + 2)) out in
  b <- get_bit value 6 ;;
  let out := append_if b (format_int "DISCHARGE." (idx * 2 + 2)) out in
  b <- get_bit value 5 ;;
  let out := append_if b (if idx =? 0 then "VS_LOW.12" else "VS_LOW.34") out in
  b <- get_bit value 4 ;;
  let out := append_if b (format_int "KEEP_OUT." (idx * 2 + 2)) out in
  b <- get_bit value 3 ;;
  let out := append_if b (if idx =? 0 then "DIE_TEMP_LOW.12"
                          else "DIE_TEMP_LOW.34") out in
  b <- get_bit value 1 ;;
  let out := append_if b (format_int "BACK_BIAS." (idx * 2 + 2)) out in
  b <- get_bit value 0 ;;
  let out := append_if b (format_int "OVER_LIMIT." (idx * 2 + 2)) out in
  Ok out.

(** [current_alerts()]: the loop over [enumerate([ADDR_USC12, ADDR_USC34])]. *)
Definition current_alerts : result (list string) :=
  foldM chip_alerts [(0, ADDR_USC12); (1, ADDR_USC34)] [].
End Alerts.

(** [hex(n)] *)
Definition hex (n : Z) : string :=
  if n <? 0
  then "-0x" ++ HexadecimalString.NilZero.string_of_uint
                  (N.to_hex_uint (Z.to_N (- n)))
  else "0x" ++ HexadecimalString.NilZero.string_of_uint
                 (N.to_hex_uint (Z.to_N n)).

(** [c.upper()] on one ASCII character. *)
Definition upper_ascii (c : ascii) : ascii :=
  let n := N_of_ascii c in
  if (N.leb 97 n && N.leb n 122)%bool then ascii_of_N (n - 32) else c.

(** [s.upper()] on ASCII text. *)
Fixpoint upper (s : string) : string :=
  match s with
  | EmptyString => EmptyString
  | String c s' => String (upper_ascii c) (upper s')
  end.

(** The first loop of [print_register]: the items of [body] that go into
    [meta].  The test is [key.startswith("reserved") or key[0] == "_"]. *)
Fixpoint visible_items (items meta : list (string * Z))
  : result (list (string * Z)) :=
  match items with
  | [] => Ok meta
  | (key, value) :: rest =>
      skip <- (if startswith key "reserved" then Ok true
               else c <- str_first key ;; Ok (Ascii.eqb c "_")) ;;
      if skip then visible_items rest meta
      else visible_items rest (dict_set String.eqb meta key value)
  end.

(** [print_register(data)] for a [body] that is a dictionary; the result
    is the list of the lines printed, in order. *)
Definition print_register (mapping : catalog) (data : DecodedRegister)
  : result (list string) :=
  meta <- visible_items (body data) [] ;;
  let addr_text := replace (upper (hex (addr data))) "0X" "0x" in
  name <- find_name mapping (addr data) ;;
  lines <- mapM (fun key =>
                   value <- dict_getitem String.eqb meta key ;;
                   Ok ("       " ++ key ++ " : " ++ hex value))
                (sorted (keys meta)) ;;
  Ok ((addr_text ++ " " ++ name) :: lines).

(** ** Notions used by the further properties *)

(** The order of [sorted] on field names. *)
Definition str_le (a b : string) : Prop := String.leb a b = true.

(** The limit [current_limits] reads for an index of the table. *)
Definition limit_of (key : Z) : Z := nth (Z.to_nat key) UCS2113_CURRENT_MAP 0.

(** The alerts in the order [current_alerts] tests them: the chip, the
    register, the bit and the text. *)
Definition alert_table : list (Z * Z * Z * string) :=
  [(ADDR_USC12, UCS2113_PORT_STATUS, 7, "ALERT.1");
   (ADDR_USC12, UCS2113_PORT_STATUS, 6, "ALERT.2");
   (ADDR_USC12, UCS2113_PORT_STATUS, 5, "CC_MODE.1");
   (ADDR_USC12, UCS2113_PORT_STATUS, 4, "CC_MODE.2");
   (ADDR_USC12, UCS2113_INTERRUPT1, 7, "ERROR.1");
   (ADDR_USC12, UCS2113_INTERRUPT1, 6, "DISCHARGE.1");
   (ADDR_USC12, UCS2113_INTERRUPT1, 5, "RESET.12");
   (ADDR_USC12, UCS2113_INTERRUPT1, 4, "KEEP_OUT.1");
   (ADDR_USC12, UCS2113_INTERRUPT1, 3, "DIE_TEMP_HIGH.12");
   (ADDR_USC12, UCS2113_INTERRUPT1, 2, "OVER_VOLT.12");
   (ADDR_USC12, UCS2113_INTERRUPT1, 1, "BACK_BIAS.1");
   (ADDR_USC12, UCS2113_INTERRUPT1, 0, "OVER_LIMIT.1");
   (ADDR_USC12, UCS2113_INTERRUPT2, 7, "ERROR.2");
   (ADDR_USC12, UCS2113_INTERRUPT2, 6, "DISCHARGE.2");
   (ADDR_USC12, UCS2113_INTERRUPT2, 5, "VS_LOW.12");
   (ADDR_USC12, UCS2113_INTERRUPT2, 4, "KEEP_OUT.2");
   (ADDR_USC12, UCS2113_INTERRUPT2, 3, "DIE_TEMP_LOW.12");
   (ADDR_USC12, UCS2113_INTERRUPT2, 1, "BACK_BIAS.2");
   (ADDR_USC12, UCS2113_INTERRUPT2, 0, "OVER_LIMIT.2");
   (ADDR_USC34, UCS2113_PORT_STATUS, 7, "ALERT.3");
   (ADDR_USC34, UCS2113_PORT_STATUS, 6, "ALERT.4");
   (ADDR_USC34, UCS2113_PORT_STATUS, 5, "CC_MODE.3");
   (ADDR_USC34, UCS2113_PORT_STATUS, 4, "CC_MODE.4");
   (ADDR_USC34, UCS2113_INTERRUPT1, 7, "ERROR.3");
   (ADDR_USC34, UCS2113_INTERRUPT1, 6, "DISCHARGE.3");
   (ADDR_USC34, UCS2113_INTERRUPT1, 5, "RESET.34");
   (ADDR_USC34, UCS2113_INTERRUPT1, 4, "KEEP_OUT.3");
   (ADDR_USC34, UCS2113_INTERRUPT1, 3, "DIE_TEMP_HIGH.34");
   (ADDR_USC34, UCS2113_INTERRUPT1, 2, "OVER_VOLT.34");
   (ADDR_USC34, UCS2113_INTERRUPT1, 1, "BACK_BIAS.3");
   (ADDR_USC34, UCS2113_INTERRUPT1, 0, "OVER_LIMIT.3");
   (ADDR_USC34, UCS2113_INTERRUPT2, 7, "ERROR.4");
   (ADDR_USC34, UCS2113_INTERRUPT2, 6, "DISCHARGE.4");
   (ADDR_USC34, UCS2113_INTERRUPT2, 5, "VS_LOW.34");
   (ADDR_USC34, UCS2113_INTERRUPT2, 4, "KEEP_OUT.4");
   (ADDR_USC34, UCS2113_INTERRUPT2, 3, "DIE_TEMP_LOW.34");
   (ADDR_USC34, UCS2113_INTERRUPT2, 1, "BACK_BIAS.4");
   (ADDR_USC34, UCS2113_INTERRUPT2, 0, "OVER_LIMIT.4")].

(** Whether the bit of an entry of the table is set in the device. *)
Definition alert_raised (status : Z -> Z -> Z) (e : Z * Z * Z * string) : bool :=
  let '(i2c_addr, reg, bit, _) := e in Z.testbit (status i2c_addr reg) bit.

(** What one byte per chip register the device answers with. *)
Definition answers_with (read : Z -> Z -> result (list Z)) (status : Z -> Z -> Z)
  : Prop :=
  forall i2c_addr reg,
    In i2c_addr [ADDR_USC12; ADDR_USC34] ->
    In reg [UCS2113_PORT_STATUS; UCS2113_INTERRUPT1; UCS2113_INTERRUPT2] ->
    exists rest, read i2c_addr reg = Ok (status i2c_addr reg :: rest).

(** The fields [print_register] shows. *)
Definition shown (key : string) : bool :=
  negb (startswith key "reserved") && negb (startswith key "_").

(** The line printed for a field. *)
Definition field_line (item : string * Z) : string :=
  ("       " ++ fst item ++ " : " ++ hex (snd item))%string.

(** The first line printed. *)
Definition header_line (data : DecodedRegister) (name : string) : string :=
  (replace (upper (hex (addr data))) "0X" "0x" ++ " " ++ name)%string.

Module Wired.
(** A catalog and a parser layout for the connection register. *)
Definition mapping : catalog := [("port::connection", (0x3194, 8, "big"))].

Definition layouts : list (Z * layout) :=
  [(0x3194, [("port4", 2); ("port3", 2); ("port2", 2); ("port1", 2)])].

(** A device whose connection register reads 0b00010001: port3 and port1
    hold 1. *)
Definition device (request_type request value index length : Z)
  : result (list Z) := Ok [0x11].
End Wired.

(** * Properties *)

Open Scope list_scope.

(** ** Dictionaries with string keys *)

Section DictFacts.
Context {V : Type}.
Implicit Types (d : list (string * V)) (k : string) (v : V).

Lemma dict_get_set d k v k' :
  dict_get String.eqb (dict_set String.eqb d k v) k'
  = if String.eqb k k' then Some v else dict_get String.eqb d k'.
Proof.
  induction d as [|[k0 v0] d IH]; simpl.
  - reflexivity.
  - destruct (String.eqb k0 k) eqn:E; simpl.
    + apply String.eqb_eq in E; subst k0.
      destruct (String.eqb k k'); reflexivity.
    + destruct (String.eqb k0 k') eqn:E'.
      * apply String.eqb_eq in E'; subst k0.
        rewrite String.eqb_sym, E. reflexivity.
      * exact IH.
Qed.

Lemma in_dict_set d k v n e :
  In (n, e) (dict_set String.eqb d k v) -> (n = k /\ e = v) \/ In (n, e) d.
Proof.
  induction d as [|[k0 v0] d IH]; simpl.
  - intros [H|[]]. inversion H. auto.
  - destruct (String.eqb k0 k) eqn:E; simpl.
    + apply String.eqb_eq in E; subst k0.
      intros [H|H]; [inversion H; auto | auto].
    + intros [H|H]; [auto | destruct (IH H); auto].
Qed.

Lemma dict_get_in d k v :
  dict_get String.eqb d k = Some v -> In (k, v) d.
Proof.
  induction d as [|[k0 v0] d IH]; simpl; [discriminate|].
  destruct (String.eqb k0 k) eqn:E.
  - apply String.eqb_eq in E; subst k0. intros H; inversion H; auto.
  - auto.
Qed.

Lemma in_dict_get d k v :
  NoDup (keys d) -> In (k, v) d -> dict_get String.eqb d k = Some v.
Proof.
  induction d as [|[k0 v0] d IH]; simpl; [intros _ []|].
  intros ND [H|H].
  - inversion H; subst. rewrite String.eqb_refl. reflexivity.
  - inversion ND as [|? ? Hnot ND']; subst.
    destruct (String.eqb k0 k) eqn:E.
    + apply String.eqb_eq in E; subst k0.
      exfalso. apply Hnot. change k with (fst (k, v)). apply in_map, H.
    + apply IH; assumption.
Qed.
End DictFacts.

(** ** Lookups in the catalog *)

Lemma supported_width_test bits :
  existsb (Z.eqb bits) [8; 16; 24; 32] = true <-> supported_width bits.
Proof.
  unfold supported_width. rewrite existsb_exists. split.
  - intros [x [Hin Heq]]. apply Z.eqb_eq in Heq. subst x. exact Hin.
  - intros Hin. exists bits. split; [exact Hin | apply Z.eqb_refl].
Qed.

Lemma find_ok_inv mapping name address bits endian :
  find mapping name = Ok (address, bits, endian) ->
  dict_get String.eqb mapping name = Some (address, bits, endian)
  /\ supported_width bits.
Proof.
  unfold find, dict_contains, dict_getitem.
  destruct (dict_get String.eqb mapping name) as [[[a b] e]|]; cbn [bind];
    [|discriminate].
  destruct (existsb (Z.eqb b) [8; 16; 24; 32]) eqn:E; [|discriminate].
  intros H; inversion H; subst. split; [reflexivity|].
  apply supported_width_test, E.
Qed.

(** C7: [find] raises the unknown-name error for a name the catalog lacks,
    the unsupported-width error for an entry whose width is not 8, 16, 24 or
    32, and otherwise returns the entry's address, width and byte order. *)
Theorem find_outcomes (mapping : catalog) (name : string) :
  (dict_get String.eqb mapping name = None ->
   find mapping name = Raise (ValueError (UnknownRegisterName name)))
  /\ (forall address bits endian,
        dict_get String.eqb mapping name = Some (address, bits, endian) ->
        ~ supported_width bits ->
        find mapping name = Raise (ValueError (RegisterHasBits name bits)))
  /\ (forall address bits endian,
        dict_get String.eqb mapping name = Some (address, bits, endian) ->
        supported_width bits ->
        find mapping name = Ok (address, bits, endian)).
Proof.
  unfold find, dict_contains, dict_getitem. repeat split.
  - intros ->. reflexivity.
  - intros address bits endian -> Hbad. cbn [bind].
    destruct (existsb (Z.eqb bits) [8; 16; 24; 32]) eqn:E; [|reflexivity].
    exfalso. apply Hbad, supported_width_test, E.
  - intros address bits endian -> Hgood. cbn [bind].
    apply supported_width_test in Hgood. rewrite Hgood. reflexivity.
Qed.

Lemma find_outcomes_witness :
  find Sample.mapping "port::status"
  = Raise (ValueError (UnknownRegisterName "port::status"))
  /\ find (("main::odd", (0x3000, 12, "little")) :: Sample.mapping) "main::odd"
     = Raise (ValueError (RegisterHasBits "main::odd" 12))
  /\ find Sample.mapping "main::vendor_id" = Ok (0x3000, 16, "little").
Proof.
  split; [|split].
  - apply (proj1 (find_outcomes Sample.mapping "port::status")). reflexivity.
  - apply (proj1 (proj2 (find_outcomes
                           (("main::odd", (0x3000, 12, "little")) :: Sample.mapping)
                           "main::odd")) 0x3000 12 "little").
    + reflexivity.
    + unfold supported_width. simpl. lia.
  - apply (proj2 (proj2 (find_outcomes Sample.mapping "main::vendor_id"))
             0x3000 16 "little").
    + reflexivity.
    + unfold supported_width. simpl. lia.
Defined.

(** ** Addresses stay distinct while the catalog is built *)

Section Held.
Context {V : Type} (g : V -> Z).
Implicit Types (d : list (string * V)).

Lemma in_held_dict_set d k v x :
  In x (held g (dict_set String.eqb d k v)) -> x = g v \/ In x (held g d).
Proof.
  unfold held. induction d as [|[k0 v0] d IH]; simpl.
  - intros [H|[]]; auto.
  - destruct (String.eqb k0 k); simpl.
    + intros [H|H]; auto.
    + intros [H|H]; [auto | destruct (IH H); auto].
Qed.

Lemma NoDup_held_dict_set d k v :
  NoDup (held g d) -> ~ In (g v) (held g d) ->
  NoDup (held g (dict_set String.eqb d k v)).
Proof.
  induction d as [|[k0 v0] d IH]; simpl; intros ND Hfresh.
  - constructor; [intros [] | constructor].
  - inversion ND as [|? ? Hnot ND']; subst.
    destruct (String.eqb k0 k); simpl.
    + constructor; [tauto | exact ND'].
    + constructor.
      * intros Hin. apply in_held_dict_set in Hin. destruct Hin as [Heq|Hin].
        -- apply Hfresh. left. exact Heq.
        -- apply Hnot, Hin.
      * apply IH; [exact ND' | tauto].
Qed.
End Held.

Lemma invert_from_NoDup (cases : list (Z * string)) :
  forall acc : list (string * Z),
    NoDup (map fst cases) ->
    NoDup (held (fun a => a) acc) ->
    (forall x, In x (map fst cases) -> ~ In x (held (fun a => a) acc)) ->
    NoDup (held (fun a => a)
             (fold_left (fun acc kv => dict_set String.eqb acc (snd kv) (fst kv))
                cases acc)).
Proof.
  induction cases as [|[a name] cases IH]; simpl; intros acc ND NDacc Hdisj.
  - exact NDacc.
  - inversion ND as [|? ? Hnot ND']; subst.
    apply IH.
    + exact ND'.
    + apply NoDup_held_dict_set; [exact NDacc | apply Hdisj; now left].
    + intros x Hx Hin. apply in_held_dict_set in Hin. destruct Hin as [->|Hin].
      * apply Hnot, Hx.
      * apply (Hdisj x); [now right | exact Hin].
Qed.

Lemma invert_NoDup (cases : list (Z * string)) :
  NoDup (keys cases) -> NoDup (map snd (invert cases)).
Proof.
  intros ND. unfold invert.
  apply (invert_from_NoDup cases []).
  - exact ND.
  - constructor.
  - intros x _ [].
Qed.

Lemma build_entries_NoDup (def : definition) (items : list (string * Z)) :
  forall acc mapping,
    build_entries def items acc = Ok mapping ->
    NoDup (map snd items) ->
    NoDup (held entry_address acc) ->
    (forall x, In x (map snd items) -> ~ In x (held entry_address acc)) ->
    NoDup (held entry_address mapping).
Proof.
  induction items as [|[k v] items IH]; simpl; intros acc mapping Hrun ND NDacc Hdisj.
  - inversion Hrun; subst. exact NDacc.
  - destruct (get_register_length def k) as [bits|]; [|discriminate].
    destruct (get_register_endian def k) as [endian|]; [|discriminate].
    cbn [bind] in Hrun.
    inversion ND as [|? ? Hnot ND']; subst.
    apply (IH _ _ Hrun).
    + exact ND'.
    + apply NoDup_held_dict_set; [exact NDacc | apply Hdisj; now left].
    + intros x Hx Hin. apply in_held_dict_set in Hin. destruct Hin as [->|Hin].
      * apply Hnot, Hx.
      * apply (Hdisj x); [now right | exact Hin].
Qed.

Lemma find_name_of_entry (mapping : catalog) :
  forall name address bits endian,
    NoDup (held entry_address mapping) ->
    dict_get String.eqb mapping name = Some (address, bits, endian) ->
    find_name mapping address = Ok name.
Proof.
  induction mapping as [|[n0 [[a0 b0] e0]] mapping IH]; simpl;
    intros name address bits endian ND Hget; [discriminate|].
  inversion ND as [|? ? Hnot ND']; subst.
  destruct (String.eqb n0 name) eqn:E.
  - apply String.eqb_eq in E. inversion Hget; subst.
    rewrite Z.eqb_refl. reflexivity.
  - destruct (a0 =? address) eqn:Ea.
    + exfalso. apply Z.eqb_eq in Ea. subst a0. apply Hnot.
      apply dict_get_in in Hget.
      change address with (entry_address (snd (name, (address, bits, endian)))).
      unfold held. apply (in_map (fun p => entry_address (snd p))), Hget.
    + apply (IH _ _ _ _ ND' Hget).
Qed.

(** C6: in a catalog built from register definitions (whose case table, a
    dictionary, has each address once), the address [find] returns for a
    name is resolved by [find_name] to that same name. *)
Theorem find_name_find_roundtrip (def : definition) (cases : list (Z * string))
    (mapping : catalog) (name : string) (address bits : Z) (endian : string) :
  register_cases def = Ok cases ->
  NoDup (keys cases) ->
  build_mapping def = Ok mapping ->
  find mapping name = Ok (address, bits, endian) ->
  find_name mapping address = Ok name.
Proof.
  intros Hcases ND Hbuild Hfind.
  unfold build_mapping in Hbuild. rewrite Hcases in Hbuild. cbn [bind] in Hbuild.
  apply find_ok_inv in Hfind. destruct Hfind as [Hget _].
  apply (find_name_of_entry mapping name address bits endian); [|exact Hget].
  apply (build_entries_NoDup def (invert cases) [] mapping Hbuild).
  - apply invert_NoDup, ND.
  - constructor.
  - intros x _ [].
Qed.

Lemma find_name_find_roundtrip_witness :
  find_name
    [("main::odd", (0x3000, 12, "little")); ("port::device_speed", (0x3104, 8, "big"))]
    0x3104 = Ok "port::device_speed".
Proof.
  apply (find_name_find_roundtrip Sample.documents
           [(0x3000, "usb4715_main::odd"); (0x3104, "usb4715_port::device_speed")]
           _ "port::device_speed" 0x3104 8 "big").
  - reflexivity.
  - repeat constructor; simpl; intuition discriminate.
  - reflexivity.
  - reflexivity.
Defined.

(** ** Widths are recorded by the build and checked by [find] *)

(** C5, the build accepts any width: the sample definitions hold a register
    of 4 + 8 bits, and the catalog is built with an entry of 12 bits. *)
Lemma build_mapping_keeps_odd_width :
  build_mapping Sample.documents
  = Ok [("main::odd", (0x3000, 12, "little"));
        ("port::device_speed", (0x3104, 8, "big"))]
  /\ ~ supported_width 12.
Proof.
  split; [reflexivity|]. unfold supported_width. simpl. lia.
Qed.

(** ** Current limits *)

Lemma list_getitem_head {A : Type} (a : A) (l : list A) :
  list_getitem (a :: l) 0 = Ok a.
Proof.
  unfold list_getitem. cbn [Z.ltb Z.compare].
  destruct (Z.ltb_spec 0 (Z.of_nat (List.length (a :: l)))) as [_|H].
  - reflexivity.
  - simpl List.length in H. lia.
Qed.

Lemma three_bits_range (v : Z) : 0 <= Z.land v 7 <= 7.
Proof.
  assert (Z.land v 7 = v mod 8) as ->
    by (change 7 with (Z.ones 3); rewrite Z.land_ones by lia; reflexivity).
  pose proof (Z.mod_pos_bound v 8). lia.
Qed.

Lemma current_map_getitem (i : Z) :
  0 <= i <= 7 ->
  list_getitem UCS2113_CURRENT_MAP i = Ok (nth (Z.to_nat i) UCS2113_CURRENT_MAP 0)
  /\ In (nth (Z.to_nat i) UCS2113_CURRENT_MAP 0) UCS2113_CURRENT_MAP.
Proof.
  intros Hi.
  assert (i = 0 \/ i = 1 \/ i = 2 \/ i = 3 \/ i = 4 \/ i = 5 \/ i = 6 \/ i = 7)
    as Hcases by lia.
  repeat (destruct Hcases as [->|Hcases]); try subst i;
    (split; [reflexivity | simpl; tauto]).
Qed.

(** C10: whatever bytes the two current-limit chips return, [current_limits]
    returns four values, each taken from [UCS2113_CURRENT_MAP] at an index
    that the 3-bit masks keep between 0 and 7. *)
Theorem current_limits_in_table (read_i2c_block_data : Z -> Z -> result (list Z))
    (v12 v34 : Z) (rest12 rest34 : list Z) :
  read_i2c_block_data ADDR_USC12 UCS2113_CURRENT_LIMIT = Ok (v12 :: rest12) ->
  read_i2c_block_data ADDR_USC34 UCS2113_CURRENT_LIMIT = Ok (v34 :: rest34) ->
  let out := [Z.land v12 7; Z.land (Z.shiftr v12 3) 7;
              Z.land v34 7; Z.land (Z.shiftr v34 3) 7] in
  Forall (fun key => 0 <= key <= 7) out
  /\ current_limits read_i2c_block_data
     = Ok (map (fun key => nth (Z.to_nat key) UCS2113_CURRENT_MAP 0) out)
  /\ List.length (map (fun key => nth (Z.to_nat key) UCS2113_CURRENT_MAP 0) out)
     = 4%nat
  /\ Forall (fun limit => In limit UCS2113_CURRENT_MAP)
       (map (fun key => nth (Z.to_nat key) UCS2113_CURRENT_MAP 0) out).
Proof.
  intros H12 H34 out.
  assert (Hrange : Forall (fun key => 0 <= key <= 7) out)
    by (repeat constructor; apply three_bits_range).
  split; [exact Hrange|]. split; [|split].
  - unfold current_limits. cbn [foldM].
    rewrite H12. cbn [bind]. rewrite list_getitem_head. cbn [bind].
    rewrite H34. cbn [bind]. rewrite list_getitem_head. cbn [bind app].
    fold out. clear H12 H34.
    induction Hrange as [|key keys Hkey _ IH]; [reflexivity|].
    cbn [mapM map]. rewrite (proj1 (current_map_getitem key Hkey)).
    cbn [bind]. rewrite IH. reflexivity.
  - reflexivity.
  - apply Forall_map. apply (Forall_impl _ (fun key Hkey =>
                                              proj2 (current_map_getitem key Hkey))).
    exact Hrange.
Qed.

Lemma current_limits_in_table_witness :
  current_limits Sample.limit_chips = Ok [3200; 3200; 1070; 960].
Proof.
  apply (current_limits_in_table Sample.limit_chips 0xFF 0x0A [] [] eq_refl eq_refl).
Defined.

(** ** The visible field names *)

Lemma invert_bool_truthy (b : bool) : truthy (invert_bool b) = true.
Proof. destruct b; reflexivity. Qed.

(** C4, on the body of the example: the names are sorted and [_c] is
    dropped, but [reserved_b] stays, because [~key.startswith("reserved")]
    is -1 or -2 and both are true. *)
Theorem register_keys_keeps_reserved :
  register_keys Sample.filter_register true = Ok ["a"; "d"; "reserved_b"].
Proof. reflexivity. Qed.

Lemma filterM_ext {A : Type} (f g : A -> result bool) (l : list A) :
  (forall a, f a = g a) -> filterM f l = filterM g l.
Proof.
  intros Hfg. induction l as [|a l IH]; simpl; [reflexivity|].
  rewrite Hfg, IH. reflexivity.
Qed.

(** What [register_keys] filters: only the names that start with [_]. *)
Lemma register_keys_drops_underscore_only (parsed : DecodedRegister) :
  register_keys parsed true
  = filterM (fun key => c <- str_first key ;; Ok (negb (Ascii.eqb c "_")))
      (sorted (keys (body parsed))).
Proof.
  unfold register_keys. cbn [bind]. apply filterM_ext. intros key.
  destruct (str_first key) as [c|]; [|reflexivity]. cbn [bind].
  rewrite invert_bool_truthy. destruct (negb (Ascii.eqb c "_")); reflexivity.
Qed.

(** ** The store *)

Lemma nth_error_update_same (h : heap) (r : ref) (o o' : DecodedRegister) :
  nth_error h r = Some o -> nth_error (update h r o') r = Some o'.
Proof.
  revert r. induction h as [|x h IH]; intros [|r]; simpl; try discriminate; auto.
Qed.

Lemma nth_error_update_other (h : heap) (r r' : ref) (o' : DecodedRegister) :
  r <> r' -> nth_error (update h r o') r' = nth_error h r'.
Proof.
  revert r r'. induction h as [|x h IH]; intros [|r] [|r'] Hne; simpl;
    try reflexivity; try congruence.
  apply IH. congruence.
Qed.

Lemma length_update (h : heap) (r : ref) (o' : DecodedRegister) :
  List.length (update h r o') = List.length h.
Proof.
  revert r. induction h as [|x h IH]; intros [|r]; simpl; auto.
Qed.

Lemma update_update (h : heap) (r : ref) (o1 o2 : DecodedRegister) :
  update (update h r o1) r o2 = update h r o2.
Proof.
  revert r. induction h as [|x h IH]; intros [|r]; simpl; try reflexivity.
  now rewrite IH.
Qed.

Lemma update_same (h : heap) (r : ref) (o : DecodedRegister) :
  nth_error h r = Some o -> update h r o = h.
Proof.
  revert r. induction h as [|x h IH]; intros [|r]; simpl; try discriminate.
  - intros H; inversion H; reflexivity.
  - intros H. now rewrite IH.
Qed.

Lemma with_body_same (o : DecodedRegister) : with_body o (body o) = o.
Proof. destruct o; reflexivity. Qed.

(** ** The port remap *)

Lemma str_in_iff (key : string) (l : list string) :
  str_in key l = true <-> In key l.
Proof.
  unfold str_in. rewrite existsb_exists. split.
  - intros [x [Hin Heq]]. apply String.eqb_eq in Heq. now subst x.
  - intros Hin. exists key. split; [exact Hin | apply String.eqb_refl].
Qed.

Lemma port_of_wiring (key : string) :
  str_in key PORT_MAP = true ->
  exists port, port_of key = Ok port /\ In (key, port) wiring.
Proof.
  intros Hin. apply str_in_iff in Hin. simpl in Hin.
  destruct Hin as [<-|[<-|[<-|[<-|[]]]]];
    eexists; (split; [reflexivity | simpl; tauto]).
Qed.

Lemma wiring_port_of (raw port : string) :
  In (raw, port) wiring -> str_in raw PORT_MAP = true /\ port_of raw = Ok port.
Proof.
  simpl. intros [H|[H|[H|[H|[]]]]]; inversion H; subst; split; reflexivity.
Qed.

Lemma wiring_injective (raw raw' port : string) :
  In (raw, port) wiring -> In (raw', port) wiring -> raw = raw'.
Proof.
  simpl. intros [H|[H|[H|[H|[]]]]] [H'|[H'|[H'|[H'|[]]]]];
    inversion H; subst; inversion H'; subst; reflexivity.
Qed.

Lemma remap_items_run (items : list (string * Z)) (parsed : ref) :
  forall (h : heap) (o : DecodedRegister),
    nth_error h parsed = Some o ->
    remap_items items parsed h
    = Ok (tt, update h parsed (with_body o (remap_body items (body o)))).
Proof.
  induction items as [|[key value] items IH]; intros h o Hload.
  - simpl. unfold ret. rewrite with_body_same, (update_same _ _ _ Hload).
    reflexivity.
  - cbn [remap_items remap_body]. unfold bindM at 1.
    destruct (str_in key PORT_MAP) eqn:Hkey.
    + destruct (port_of_wiring key Hkey) as [port [Hport _]].
      rewrite Hport. unfold bindM, lift, body_setitem. rewrite Hload.
      rewrite (IH _ (with_body o (dict_set String.eqb (body o) port value))).
      * rewrite update_update. reflexivity.
      * apply (nth_error_update_same _ _ _ _ Hload).
    + unfold ret. apply IH, Hload.
Qed.

Lemma dict_get_none_not_in {V : Type} (d : list (string * V)) (k : string) (v : V) :
  dict_get String.eqb d k = None -> ~ In (k, v) d.
Proof.
  induction d as [|[k0 v0] d IH]; simpl; [tauto|].
  destruct (String.eqb k0 k) eqn:E; [discriminate|].
  intros Hnone [H|H].
  - inversion H; subst. rewrite String.eqb_refl in E. discriminate.
  - exact (IH Hnone H).
Qed.

Lemma keys_dict_set_incl {V : Type} (d : list (string * V)) (k k' : string) (v : V) :
  In k' (keys d) -> In k' (keys (dict_set String.eqb d k v)).
Proof.
  unfold keys. induction d as [|[k0 v0] d IH]; simpl; [tauto|].
  destruct (String.eqb k0 k); simpl; tauto.
Qed.

Lemma remap_body_keeps_keys (items : list (string * Z)) :
  forall b key, In key (keys b) -> In key (keys (remap_body items b)).
Proof.
  induction items as [|[k v] items IH]; intros b key Hin; cbn [remap_body];
    [exact Hin|].
  apply IH. destruct (str_in k PORT_MAP); [|exact Hin].
  destruct (port_of k); [|exact Hin]. apply keys_dict_set_incl, Hin.
Qed.

(** A name no item is wired to keeps its value. *)
Lemma remap_body_frame (items : list (string * Z)) :
  forall b key,
    (forall raw v, In (raw, key) wiring -> ~ In (raw, v) items) ->
    dict_get String.eqb (remap_body items b) key = dict_get String.eqb b key.
Proof.
  induction items as [|[k v] items IH]; intros b key Hfree; cbn [remap_body];
    [reflexivity|].
  rewrite IH by (intros raw v' Hw Hin; apply (Hfree raw v' Hw); now right).
  destruct (str_in k PORT_MAP) eqn:Hk; [|reflexivity].
  destruct (port_of_wiring k Hk) as [port [-> Hw]].
  rewrite dict_get_set.
  destruct (String.eqb port key) eqn:E; [|reflexivity].
  apply String.eqb_eq in E; subst port.
  exfalso. apply (Hfree k v Hw). now left.
Qed.

(** The name an item is wired to receives the value of that item. *)
Lemma remap_body_wired (items : list (string * Z)) :
  forall b raw port v,
    NoDup (keys items) ->
    In (raw, port) wiring ->
    In (raw, v) items ->
    dict_get String.eqb (remap_body items b) port = Some v.
Proof.
  induction items as [|[k v0] items IH]; intros b raw port v ND Hw Hin;
    [destruct Hin|].
  inversion ND as [|? ? Hnot ND']; subst.
  destruct Hin as [Hhead|Hin].
  - inversion Hhead; subst. cbn [remap_body].
    destruct (wiring_port_of raw port Hw) as [-> ->].
    rewrite remap_body_frame.
    + rewrite dict_get_set, String.eqb_refl. reflexivity.
    + intros raw' v' Hw' Hin'.
      rewrite <- (wiring_injective _ _ _ Hw Hw') in Hin'.
      apply Hnot. change raw with (fst (raw, v')). apply in_map, Hin'.
  - cbn [remap_body]. apply (IH _ raw port v ND' Hw Hin).
Qed.

Lemma port_remap_run (name : string) (h : heap) (parsed : ref)
    (o : DecodedRegister) :
  In name REGISTER_NEEDS_PORT_REMAP ->
  nth_error h parsed = Some o ->
  port_remap name parsed h
  = Ok (tt, update (h ++ [o]) parsed (with_body o (remap_body (body o) (body o)))).
Proof.
  intros Hname Hload. apply str_in_iff in Hname.
  assert (Hlt : (parsed < List.length h)%nat)
    by (apply nth_error_Some; congruence).
  unfold port_remap. rewrite Hname.
  unfold bindM, deepcopy, bindM, load, alloc. rewrite Hload.
  rewrite nth_error_app2, Nat.sub_diag by apply Nat.le_refl. cbn [nth_error].
  apply remap_items_run. rewrite nth_error_app1 by exact Hlt. exact Hload.
Qed.

(** C2, on the example: after the remap [port2] holds 1 where the raw
    register had 0, and [port1] holds the raw value of [port3], not the 0
    of raw [port2]. *)
Lemma port_remap_overwrites_ports :
  port_remap "port::connection" 0%nat [Sample.connection_register]
  = Ok (tt, [with_body Sample.connection_register
               [("port1", 1); ("port2", 1); ("port3", 0); ("port4", 0)];
             Sample.connection_register])
  /\ dict_get String.eqb (body Sample.connection_register) "port2" = Some 0
  /\ dict_get String.eqb
       [("port1", 1); ("port2", 1); ("port3", 0); ("port4", 0)] "port2"
     <> dict_get String.eqb (body Sample.connection_register) "port2".
Proof.
  split; [reflexivity|]. split; [reflexivity|]. simpl. discriminate.
Qed.

(** C2, as the code has it: for a register of the remap list, every field
    [port1]..[port4] of the decoded body gives its value to the name
    [PORT_MAP] has at its index; these names are again [port1]..[port4], so
    the fields are overwritten by their wired values; every key of the body
    stays, and a name that no present field is wired to keeps its value. *)
Theorem port_remap_rewires (name : string) (h : heap) (parsed : ref)
    (o : DecodedRegister) :
  In name REGISTER_NEEDS_PORT_REMAP ->
  nth_error h parsed = Some o ->
  NoDup (keys (body o)) ->
  exists h' o',
    port_remap name parsed h = Ok (tt, h')
    /\ nth_error h' parsed = Some o'
    /\ (forall raw port v,
          In (raw, port) wiring ->
          dict_get String.eqb (body o) raw = Some v ->
          dict_get String.eqb (body o') port = Some v)
    /\ (forall key, In key (keys (body o)) -> In key (keys (body o')))
    /\ (forall key,
          (forall raw, In (raw, key) wiring ->
                       dict_get String.eqb (body o) raw = None) ->
          dict_get String.eqb (body o') key = dict_get String.eqb (body o) key).
Proof.
  intros Hname Hload ND.
  assert (Hlt : (parsed < List.length h)%nat)
    by (apply nth_error_Some; congruence).
  exists (update (h ++ [o]) parsed (with_body o (remap_body (body o) (body o)))),
    (with_body o (remap_body (body o) (body o))).
  split; [apply port_remap_run; assumption|].
  split; [apply (nth_error_update_same _ _ o);
          rewrite nth_error_app1 by exact Hlt; exact Hload|].
  cbn [with_body body]. repeat split.
  - intros raw port v Hw Hget.
    apply (remap_body_wired _ _ raw port v ND Hw), dict_get_in, Hget.
  - intros key. apply remap_body_keeps_keys.
  - intros key Hfree. apply remap_body_frame.
    intros raw v Hw. apply dict_get_none_not_in, Hfree, Hw.
Qed.

Lemma port_remap_rewires_witness :
  exists h' o',
    port_remap "port::connection" 0%nat [Sample.connection_register] = Ok (tt, h')
    /\ nth_error h' 0%nat = Some o'
    /\ dict_get String.eqb (body o') "port4" = Some 0.
Proof.
  destruct (port_remap_rewires "port::connection" [Sample.connection_register]
              0%nat Sample.connection_register)
    as [h' [o' [Hrun [Hload [Hwired _]]]]].
  - simpl. tauto.
  - reflexivity.
  - repeat constructor; simpl; intuition discriminate.
  - exists h', o'. split; [exact Hrun|]. split; [exact Hload|].
    apply (Hwired "port2" "port4" 0); [simpl; tauto | reflexivity].
Defined.

(** C3, on the example: the object behind the reference handed to the remap
    is not what it was before the call. *)
Lemma port_remap_mutates_parsed :
  exists h',
    port_remap "port::connection" 0%nat [Sample.connection_register] = Ok (tt, h')
    /\ nth_error h' 0%nat
       = Some (with_body Sample.connection_register
                 [("port1", 1); ("port2", 1); ("port3", 0); ("port4", 0)])
    /\ nth_error h' 0%nat <> nth_error [Sample.connection_register] 0%nat.
Proof.
  eexists. split; [reflexivity|]. split; [reflexivity|].
  simpl. discriminate.
Qed.

(** C3, as the code has it: the remap writes into the object it is given,
    which is the object [parse_register] returns; the deep copy is a new
    object that keeps the fields as they were and is only read; no other
    object of the store changes. *)
Theorem port_remap_in_place (name : string) (h : heap) (parsed : ref)
    (o : DecodedRegister) :
  In name REGISTER_NEEDS_PORT_REMAP ->
  nth_error h parsed = Some o ->
  exists h',
    port_remap name parsed h = Ok (tt, h')
    /\ nth_error h' parsed = Some (with_body o (remap_body (body o) (body o)))
    /\ List.length h' = S (List.length h)
    /\ nth_error h' (List.length h) = Some o
    /\ (forall r, r <> parsed -> (r < List.length h)%nat ->
                  nth_error h' r = nth_error h r).
Proof.
  intros Hname Hload.
  assert (Hlt : (parsed < List.length h)%nat)
    by (apply nth_error_Some; congruence).
  eexists. split; [apply port_remap_run; eassumption|].
  split; [|split; [|split]].
  - apply (nth_error_update_same _ _ o).
    rewrite nth_error_app1 by exact Hlt. exact Hload.
  - rewrite length_update, length_app. simpl. lia.
  - rewrite nth_error_update_other by lia.
    rewrite nth_error_app2, Nat.sub_diag by apply Nat.le_refl. reflexivity.
  - intros r Hne Hr. rewrite nth_error_update_other by congruence.
    apply nth_error_app1, Hr.
Qed.

Lemma port_remap_in_place_witness :
  exists h',
    port_remap "port::device_speed" 0%nat [Sample.connection_register] = Ok (tt, h')
    /\ nth_error h' 1%nat = Some Sample.connection_register.
Proof.
  destruct (port_remap_in_place "port::device_speed" [Sample.connection_register]
              0%nat Sample.connection_register)
    as [h' [Hrun [_ [_ [Hcopy _]]]]].
  - simpl. tauto.
  - reflexivity.
  - exists h'. split; [exact Hrun | exact Hcopy].
Defined.

(** A register outside the remap list is returned as parsed. *)
Lemma port_remap_other_names (name : string) (h : heap) (parsed : ref) :
  ~ In name REGISTER_NEEDS_PORT_REMAP -> port_remap name parsed h = Ok (tt, h).
Proof.
  intros Hname. unfold port_remap.
  destruct (str_in name REGISTER_NEEDS_PORT_REMAP) eqn:E; [|reflexivity].
  apply str_in_iff in E. contradiction.
Qed.

Lemma parse_register_run (registers_parse : list Z -> result DecodedRegister)
    (name : string) (stream : list Z) (h : heap) (o : DecodedRegister) :
  In name REGISTER_NEEDS_PORT_REMAP ->
  registers_parse stream = Ok o ->
  parse_register registers_parse name stream h
  = Ok (List.length h,
        h ++ [with_body o (remap_body (body o) (body o)); o]).
Proof.
  intros Hname Hparse. unfold parse_register, bindM at 1, lift. rewrite Hparse.
  unfold bindM at 1, alloc. unfold bindM.
  rewrite (port_remap_run name (h ++ [o]) (List.length h) o Hname).
  - unfold ret. f_equal. f_equal.
    rewrite <- app_assoc. simpl.
    clear. induction h as [|x h IH]; simpl; [reflexivity|]. now rewrite IH.
  - rewrite nth_error_app2, Nat.sub_diag by apply Nat.le_refl. reflexivity.
Qed.

(** ** Speeds *)

Lemma NoDup4_inv {A : Type} (a b c d : A) :
  NoDup [a; b; c; d] ->
  a <> b /\ a <> c /\ a <> d /\ b <> c /\ b <> d /\ c <> d.
Proof.
  intros ND.
  inversion ND as [|? ? Ha ND1]; subst.
  inversion ND1 as [|? ? Hb ND2]; subst.
  inversion ND2 as [|? ? Hc ND3]; subst.
  simpl in Ha, Hb, Hc. repeat split; intros ->; tauto.
Qed.

Lemma raw_speed_codes_NoDup : NoDup raw_speed_codes.
Proof.
  unfold raw_speed_codes. repeat constructor; simpl; intuition discriminate.
Qed.

(** The labels [speeds] reads off a register whose fields are the raw codes
    of the example, in whatever order the parser lists them. *)
Lemma speed_labels_after_remap (o : DecodedRegister) :
  Permutation (body o) raw_speed_codes ->
  (let speed := with_body o (remap_body (body o) (body o)) in
   keys <- register_keys speed true ;;
   mapM (fun key =>
           code <- dict_getitem String.eqb (body speed) key ;;
           list_getitem ["none"; "low"; "full"; "high"] code) keys)
  = Ok ["high"; "none"; "low"; "full"].
Proof.
  intros Hperm. destruct o as [a n b]. cbn [body] in *.
  pose proof (Permutation_length Hperm) as Hlen.
  destruct b as [|x1 [|x2 [|x3 [|x4 [|x5 b]]]]]; try discriminate Hlen.
  pose proof (NoDup4_inv _ _ _ _
                (Permutation_NoDup (Permutation_sym Hperm) raw_speed_codes_NoDup))
    as [H12 [H13 [H14 [H23 [H24 H34]]]]].
  assert (H1 : In x1 raw_speed_codes)
    by (apply (Permutation_in _ Hperm); simpl; tauto).
  assert (H2 : In x2 raw_speed_codes)
    by (apply (Permutation_in _ Hperm); simpl; tauto).
  assert (H3 : In x3 raw_speed_codes)
    by (apply (Permutation_in _ Hperm); simpl; tauto).
  assert (H4 : In x4 raw_speed_codes)
    by (apply (Permutation_in _ Hperm); simpl; tauto).
  clear Hperm Hlen. unfold raw_speed_codes in *. simpl in H1, H2, H3, H4.
  destruct H1 as [<-|[<-|[<-|[<-|[]]]]];
    destruct H2 as [<-|[<-|[<-|[<-|[]]]]]; try congruence;
    destruct H3 as [<-|[<-|[<-|[<-|[]]]]]; try congruence;
    destruct H4 as [<-|[<-|[<-|[<-|[]]]]]; try congruence;
    reflexivity.
Qed.

(** ** Register reads *)

Section Reads.
Variable mapping : catalog.
Variable ctrl_transfer : Z -> Z -> Z -> Z -> Z -> result (list Z).
Variable int_from_bytes : list Z -> string -> result Z.
Variable registers_parse : list Z -> result DecodedRegister.

(** A read by name up to the length test. *)
Lemma register_read_by_name name addr length address bits endian data h :
  find mapping name = Ok (address, bits, endian) ->
  ctrl_transfer REQ_IN CMD_REG_READ
    (Z.land (address + REG_BASE_DFT) 0xFFFF)
    (Z.shiftr (address + REG_BASE_DFT) 16) (bits / 8) = Ok data ->
  register_read mapping ctrl_transfer int_from_bytes registers_parse
    (Some name) addr length h
  = if negb (bits / 8 =? Z.of_nat (List.length data))
    then Raise (ValueError IncorrectDataLength)
    else (value <- lift (int_from_bytes data endian) ;;
          stream <- lift (encode_stream address bits value) ;;
          parsed <- parse_register registers_parse name stream ;;
          ret (rev data, parsed))%heap h.
Proof.
  intros Hfind Hctrl. unfold register_read.
  rewrite Hfind. cbn [bind]. unfold bindM at 1. cbn [lift].
  unfold bindM at 1. rewrite Hctrl. cbn [lift].
  destruct (negb (bits / 8 =? Z.of_nat (List.length data))); reflexivity.
Qed.

(** A read by address up to the length test. *)
Lemma register_read_by_address a length name data h :
  find_name mapping a = Ok name ->
  ctrl_transfer REQ_IN CMD_REG_READ (Z.land a 0xFFFF) (Z.shiftr a 16) length
  = Ok data ->
  register_read mapping ctrl_transfer int_from_bytes registers_parse
    None (Some a) length h
  = if negb (length =? Z.of_nat (List.length data))
    then Raise (ValueError IncorrectDataLength)
    else Raise UnboundLocalError.
Proof.
  intros Hname Hctrl. unfold register_read.
  rewrite Hname. cbn [bind]. unfold bindM at 1. cbn [lift].
  unfold bindM at 1. rewrite Hctrl. cbn [lift].
  destruct (negb (length =? Z.of_nat (List.length data))); reflexivity.
Qed.
End Reads.

(** C9, on a device: the speed register reads port4=1, port3=3, port2=2,
    port1=0, and [speeds] answers high, none, low, full, not the labels of
    the raw codes in port order. *)
Lemma speeds_follow_the_remap :
  (stream <- encode_stream 0x3104 8 0x78 ;;
   registers_parse_model Sample.layouts stream)
  = Ok {| addr := 0x3104; len := 1;
          body := [("port4", 1); ("port3", 3); ("port2", 2); ("port1", 0)] |}
  /\ (exists h',
        speeds Sample.mapping Sample.speed_device int_from_bytes_model
          (registers_parse_model Sample.layouts) []
        = Ok (["high"; "none"; "low"; "full"], h'))
  /\ ["high"; "none"; "low"; "full"] <> ["none"; "full"; "high"; "low"].
Proof.
  split; [reflexivity|]. split; [|discriminate].
  eexists. vm_compute. reflexivity.
Qed.

(** C9, as the code has it: when the parsed [port::device_speed] register
    has the raw fields port1=0, port2=2, port3=3, port4=1, [speeds] returns
    high, none, low, full: the remap first gives port1 the code of raw
    port3, port2 that of raw port1, port3 that of raw port4 and port4 that
    of raw port2, and the codes are then read in the table none, low, full,
    high in the order of the sorted names. *)
Theorem speeds_after_remap (mapping : catalog)
    (ctrl_transfer : Z -> Z -> Z -> Z -> Z -> result (list Z))
    (int_from_bytes : list Z -> string -> result Z)
    (registers_parse : list Z -> result DecodedRegister)
    (address bits value : Z) (endian : string) (data stream : list Z)
    (raw : DecodedRegister) (h : heap) :
  find mapping "port::device_speed" = Ok (address, bits, endian) ->
  ctrl_transfer REQ_IN CMD_REG_READ
    (Z.land (address + REG_BASE_DFT) 0xFFFF)
    (Z.shiftr (address + REG_BASE_DFT) 16) (bits / 8) = Ok data ->
  Z.of_nat (List.length data) = bits / 8 ->
  int_from_bytes data endian = Ok value ->
  encode_stream address bits value = Ok stream ->
  registers_parse stream = Ok raw ->
  Permutation (body raw) raw_speed_codes ->
  speeds mapping ctrl_transfer int_from_bytes registers_parse h
  = Ok (["high"; "none"; "low"; "full"],
        h ++ [with_body raw (remap_body (body raw) (body raw)); raw]).
Proof.
  intros Hfind Hctrl Hlen Hvalue Hstream Hparse Hperm.
  unfold speeds. unfold bindM at 1.
  rewrite (register_read_by_name _ _ _ _ _ _ _ _ _ _ _ _ Hfind Hctrl).
  rewrite <- Hlen, Z.eqb_refl. cbn [negb].
  unfold bindM at 1. rewrite Hvalue. cbn [lift].
  unfold bindM at 1. rewrite Hstream. cbn [lift].
  unfold bindM at 1.
  rewrite (parse_register_run _ _ _ _ raw) by (simpl; tauto || exact Hparse).
  cbn [ret]. unfold bindM at 1, load.
  rewrite nth_error_app2, Nat.sub_diag by apply Nat.le_refl. cbn [nth_error].
  pose proof (speed_labels_after_remap raw Hperm) as Hlabels.
  unfold lift. cbv beta zeta in Hlabels |- *. rewrite Hlabels. reflexivity.
Qed.

Lemma speeds_after_remap_witness :
  speeds Sample.mapping Sample.speed_device int_from_bytes_model
    (registers_parse_model Sample.layouts) []
  = Ok (["high"; "none"; "low"; "full"],
        [{| addr := 0x3104; len := 1;
            body := [("port4", 2); ("port3", 1); ("port2", 0); ("port1", 3)] |};
         {| addr := 0x3104; len := 1;
            body := [("port4", 1); ("port3", 3); ("port2", 2); ("port1", 0)] |}]).
Proof.
  apply (speeds_after_remap Sample.mapping Sample.speed_device
           int_from_bytes_model (registers_parse_model Sample.layouts)
           0x3104 8 0x78 "big" [0x78] [0x31; 0x04; 1; 0x78]
           {| addr := 0x3104; len := 1;
              body := [("port4", 1); ("port3", 3); ("port2", 2); ("port1", 0)] |}
           []).
  - reflexivity.
  - reflexivity.
  - reflexivity.
  - reflexivity.
  - reflexivity.
  - reflexivity.
  - unfold raw_speed_codes. cbn [body].
    apply Permutation_sym.
    exact (Permutation_rev [("port1", 0); ("port2", 2); ("port3", 3); ("port4", 1)]).
Defined.

(** ** The length test *)

Lemma no_mismatch_raise {A B : Type} (e : exn) :
  ~ length_mismatch (@Raise A e) -> ~ length_mismatch (@Raise B e).
Proof.
  unfold length_mismatch. intros Hno H. apply Hno. inversion H. reflexivity.
Qed.

Lemma int_of_str_no_mismatch s : ~ length_mismatch (int_of_str s).
Proof.
  unfold length_mismatch, int_of_str.
  match goal with
  | |- match ?value with Some _ => _ | None => _ end <> _ => destruct value
  end; discriminate.
Qed.

Lemma list_getitem_no_mismatch {A : Type} (l : list A) i :
  ~ length_mismatch (list_getitem l i).
Proof.
  unfold length_mismatch, list_getitem.
  destruct (_ && _); [|discriminate]. destruct (nth_error _ _); discriminate.
Qed.

Lemma port_of_no_mismatch key : ~ length_mismatch (port_of key).
Proof.
  unfold port_of. destruct (int_of_str _) as [n|e] eqn:E; cbn [bind].
  - apply list_getitem_no_mismatch.
  - apply (@no_mismatch_raise Z). rewrite <- E. apply int_of_str_no_mismatch.
Qed.

Lemma remap_items_no_mismatch items parsed :
  forall h, ~ length_mismatch (remap_items items parsed h).
Proof.
  induction items as [|[key value] items IH]; intros h; cbn [remap_items].
  - discriminate.
  - unfold bindM at 1. destruct (str_in key PORT_MAP).
    + unfold bindM, lift, body_setitem.
      pose proof (port_of_no_mismatch key) as Hport.
      destruct (port_of key) as [port|e]; [|exact (no_mismatch_raise e Hport)].
      destruct (nth_error h parsed); [apply IH | discriminate].
    + apply IH.
Qed.

Lemma port_remap_no_mismatch name parsed h :
  ~ length_mismatch (port_remap name parsed h).
Proof.
  unfold port_remap. destruct (str_in name _); [|discriminate].
  unfold bindM, deepcopy, bindM, load, alloc.
  destruct (nth_error h parsed); [|discriminate].
  destruct (nth_error (h ++ _) _); [|discriminate].
  apply remap_items_no_mismatch.
Qed.

Lemma encode_stream_no_mismatch address bits value :
  ~ length_mismatch (encode_stream address bits value).
Proof.
  unfold length_mismatch, encode_stream, struct_pack_HB, pack_unsigned, code_size.
  repeat match goal with
         | |- context [if ?c then _ else _] => destruct c; cbn [bind]
         end; discriminate.
Qed.

Lemma registers_parse_model_no_mismatch layouts stream :
  ~ length_mismatch (registers_parse_model layouts stream).
Proof.
  unfold length_mismatch, registers_parse_model, dict_getitem.
  destruct stream as [|a1 [|a0 [|n rest]]]; try discriminate.
  destruct (dict_get _ _ _); cbn [bind]; [|discriminate].
  destruct (_ && _); discriminate.
Qed.

Lemma int_from_bytes_model_no_mismatch data endian :
  ~ length_mismatch (int_from_bytes_model data endian).
Proof.
  unfold length_mismatch, int_from_bytes_model.
  destruct (String.eqb _ _); discriminate.
Qed.

(** C8, a read by address on a device that answers with one byte: the
    register at 0x3000 has 16 bits, one byte is not 16/8, and the read ends
    in the unbound [bits], not in the length error. *)
Lemma read_by_address_checks_requested_length :
  find_name Sample.mapping 0x3000 = Ok "main::vendor_id"
  /\ find Sample.mapping "main::vendor_id" = Ok (0x3000, 16, "little")
  /\ Sample.short_device REQ_IN CMD_REG_READ (Z.land 0x3000 0xFFFF)
       (Z.shiftr 0x3000 16) 1 = Ok [0x12]
  /\ Z.of_nat (List.length [0x12]) <> 16 / 8
  /\ register_read Sample.mapping Sample.short_device int_from_bytes_model
       (registers_parse_model Sample.layouts) None (Some 0x3000) 1 []
     = Raise UnboundLocalError
  /\ ~ length_mismatch
         (register_read Sample.mapping Sample.short_device int_from_bytes_model
            (registers_parse_model Sample.layouts) None (Some 0x3000) 1 []).
Proof.
  repeat split; try reflexivity.
  - vm_compute. discriminate.
  - vm_compute. discriminate.
Qed.

(** C8, as the code has it: the bytes the transport returns are counted
    against the length that was requested, which is the width of the
    register over 8 for a read by name and the caller's [length] for a read
    by address.  A different count raises the length error whatever the
    decoders would do; an equal count does not raise it (the decoders
    raising no such error of their own). *)
Theorem register_read_length_check (mapping : catalog)
    (ctrl_transfer : Z -> Z -> Z -> Z -> Z -> result (list Z))
    (int_from_bytes : list Z -> string -> result Z)
    (registers_parse : list Z -> result DecodedRegister) (h : heap) :
  (forall name addr length address bits endian data,
     find mapping name = Ok (address, bits, endian) ->
     ctrl_transfer REQ_IN CMD_REG_READ
       (Z.land (address + REG_BASE_DFT) 0xFFFF)
       (Z.shiftr (address + REG_BASE_DFT) 16) (bits / 8) = Ok data ->
     (Z.of_nat (List.length data) <> bits / 8 ->
      length_mismatch
        (register_read mapping ctrl_transfer int_from_bytes registers_parse
           (Some name) addr length h))
     /\ (Z.of_nat (List.length data) = bits / 8 ->
         (forall d e, ~ length_mismatch (int_from_bytes d e)) ->
         (forall s, ~ length_mismatch (registers_parse s)) ->
         ~ length_mismatch
             (register_read mapping ctrl_transfer int_from_bytes registers_parse
                (Some name) addr length h)))
  /\ (forall a length name data,
        find_name mapping a = Ok name ->
        ctrl_transfer REQ_IN CMD_REG_READ (Z.land a 0xFFFF) (Z.shiftr a 16) length
        = Ok data ->
        (Z.of_nat (List.length data) <> length ->
         length_mismatch
           (register_read mapping ctrl_transfer int_from_bytes registers_parse
              None (Some a) length h))
        /\ (Z.of_nat (List.length data) = length ->
            ~ length_mismatch
                (register_read mapping ctrl_transfer int_from_bytes
                   registers_parse None (Some a) length h))).
Proof.
  split.
  - intros name addr length address bits endian data Hfind Hctrl.
    rewrite (register_read_by_name _ _ _ _ _ _ _ _ _ _ _ _ Hfind Hctrl).
    split.
    + intros Hne.
      destruct (Z.eqb_spec (bits / 8) (Z.of_nat (List.length data))) as [Heq|_];
        [congruence | reflexivity].
    + intros Heq Hint Hparse. rewrite <- Heq, Z.eqb_refl. cbn [negb].
      unfold bindM at 1, lift.
      pose proof (Hint data endian) as Hv.
      destruct (int_from_bytes data endian) as [value|e];
        [|exact (no_mismatch_raise e Hv)].
      unfold bindM at 1.
      pose proof (encode_stream_no_mismatch address bits value) as Hs.
      destruct (encode_stream address bits value) as [stream|e];
        [|exact (no_mismatch_raise e Hs)].
      unfold bindM at 1, parse_register, bindM at 1, lift.
      pose proof (Hparse stream) as Hp.
      destruct (registers_parse stream) as [o|e];
        [|exact (no_mismatch_raise e Hp)].
      unfold bindM at 1, alloc. unfold bindM at 1.
      pose proof (port_remap_no_mismatch name (List.length h) (h ++ [o])) as Hr.
      destruct (port_remap name (List.length h) (h ++ [o])) as [[[] h']|e];
        [discriminate | exact (no_mismatch_raise e Hr)].
  - intros a length name data Hname Hctrl.
    rewrite (register_read_by_address _ _ _ _ _ _ _ _ _ Hname Hctrl).
    split.
    + intros Hne.
      destruct (Z.eqb_spec length (Z.of_nat (List.length data))) as [Heq|_];
        [congruence | reflexivity].
    + intros Heq. rewrite <- Heq, Z.eqb_refl. discriminate.
Qed.

(** ** The stream and its parse *)

(** Two adjacent bit fields are one field of the summed width. *)
Lemma pack_bits (acc value w b : Z) :
  0 <= w -> 0 <= b ->
  Z.lor (Z.shiftl (Z.lor (Z.shiftl acc w) (Z.land (Z.shiftr value b) (Z.ones w))) b)
        (Z.land value (Z.ones b))
  = Z.lor (Z.shiftl acc (w + b)) (Z.land value (Z.ones (w + b))).
Proof.
  intros Hw Hb. apply Z.bits_inj'. intros n Hn.
  rewrite !Z.lor_spec, !Z.land_spec, !Z.shiftl_spec by lia.
  rewrite !Z.testbit_ones_nonneg by lia.
  destruct (Z.ltb_spec n b) as [Hlt|Hge].
  - rewrite (Z.testbit_neg_r _ (n - b)) by lia.
    rewrite (Z.testbit_neg_r _ (n - (w + b))) by lia.
    destruct (Z.ltb_spec n (w + b)); [reflexivity | lia].
  - rewrite Z.lor_spec, Z.land_spec, Z.shiftl_spec, Z.shiftr_spec by lia.
    rewrite Z.testbit_ones_nonneg by lia.
    replace (n - b + b) with n by lia.
    replace (n - b - w) with (n - (w + b)) by lia.
    rewrite andb_false_r, orb_false_r.
    destruct (Z.ltb_spec (n - b) w); destruct (Z.ltb_spec n (w + b)); try lia;
      reflexivity.
Qed.

Lemma fold_add_shift (l : list Z) (a : Z) :
  fold_left Z.add l a = a + fold_left Z.add l 0.
Proof.
  revert a. induction l as [|x l IH]; intros a; simpl; [lia|].
  rewrite (IH (a + x)), (IH x). lia.
Qed.

Lemma layout_bits_cons name w (seq : layout) :
  layout_bits ((name, w) :: seq) = w + layout_bits seq.
Proof.
  unfold layout_bits, sum. simpl. apply fold_add_shift.
Qed.

Lemma layout_bits_nonneg (seq : layout) :
  Forall (fun f => 0 <= snd f) seq -> 0 <= layout_bits seq.
Proof.
  induction 1 as [|[name w] seq Hw _ IH]; [unfold layout_bits, sum; simpl; lia|].
  rewrite layout_bits_cons. simpl in Hw. lia.
Qed.

Lemma join_fields_ext (seq : layout) :
  forall f1 f2 acc,
    (forall name, In name (keys seq) ->
                  dict_get String.eqb f1 name = dict_get String.eqb f2 name) ->
    join_fields seq f1 acc = join_fields seq f2 acc.
Proof.
  induction seq as [|[name w] seq IH]; intros f1 f2 acc Hsame; simpl;
    [reflexivity|].
  unfold dict_getitem. rewrite (Hsame name) by (simpl; auto).
  destruct (dict_get String.eqb f2 name); cbn [bind]; [|reflexivity].
  apply IH. intros n Hn. apply Hsame. simpl. auto.
Qed.

Lemma join_split_fields (seq : layout) :
  forall value acc,
    NoDup (keys seq) ->
    Forall (fun f => 0 <= snd f) seq ->
    join_fields seq (split_fields seq (layout_bits seq) value) acc
    = Ok (Z.lor (Z.shiftl acc (layout_bits seq))
                (Z.land value (Z.ones (layout_bits seq)))).
Proof.
  induction seq as [|[name w] seq IH]; intros value acc ND Hpos.
  - change (layout_bits []) with 0. cbn [join_fields split_fields].
    rewrite Z.shiftl_0_r. change (Z.ones 0) with 0.
    rewrite Z.land_0_r, Z.lor_0_r. reflexivity.
  - inversion ND as [|? ? Hnot ND']; subst.
    inversion Hpos as [|? ? Hw Hpos']; subst. simpl in Hw.
    pose proof (layout_bits_nonneg seq Hpos') as Hb.
    rewrite layout_bits_cons. cbn [split_fields join_fields].
    replace (w + layout_bits seq - w) with (layout_bits seq) by lia.
    unfold dict_getitem. cbn [dict_get]. rewrite String.eqb_refl. cbn [bind].
    rewrite (join_fields_ext seq _ (split_fields seq (layout_bits seq) value)).
    + rewrite IH by assumption. f_equal. apply pack_bits; assumption.
    + intros n Hn. cbn [dict_get].
      destruct (String.eqb name n) eqn:E; [|reflexivity].
      apply String.eqb_eq in E. subst n. contradiction.
Qed.

Lemma from_be_snoc (l : list Z) (b : Z) :
  from_be (l ++ [b]) = from_be l * 256 + b.
Proof. unfold from_be. rewrite fold_left_app. reflexivity. Qed.

Lemma be_bytes_snoc (n : nat) :
  forall v, be_bytes (S n) v = be_bytes n (Z.shiftr v 8) ++ [Z.land v 0xFF].
Proof.
  induction n as [|n IH]; intros v.
  - simpl. rewrite Z.shiftr_0_r. reflexivity.
  - change (be_bytes (S (S n)) v)
      with (Z.land (Z.shiftr v (8 * Z.of_nat (S n))) 0xFF :: be_bytes (S n) v).
    rewrite IH.
    change (be_bytes (S n) (Z.shiftr v 8))
      with (Z.land (Z.shiftr (Z.shiftr v 8) (8 * Z.of_nat n)) 0xFF
              :: be_bytes n (Z.shiftr v 8)).
    rewrite Z.shiftr_shiftr by lia.
    replace (8 + 8 * Z.of_nat n) with (8 * Z.of_nat (S n)) by lia.
    reflexivity.
Qed.

Lemma length_be_bytes (n : nat) (v : Z) : List.length (be_bytes n v) = n.
Proof. induction n as [|n IH]; simpl; [reflexivity | now rewrite IH]. Qed.

Lemma from_be_be_bytes (n : nat) :
  forall v, from_be (be_bytes n v) = v mod 2 ^ (8 * Z.of_nat n).
Proof.
  induction n as [|n IH]; intros v.
  - simpl. rewrite Z.mod_1_r. reflexivity.
  - rewrite be_bytes_snoc, from_be_snoc, IH.
    change 0xFF with (Z.ones 8). rewrite Z.land_ones by lia.
    rewrite Z.shiftr_div_pow2 by lia.
    replace (8 * Z.of_nat (S n)) with (8 + 8 * Z.of_nat n) by lia.
    rewrite Z.pow_add_r by lia.
    rewrite Z.rem_mul_r by lia. lia.
Qed.

Lemma from_be_be_bytes_small (n : nat) (v : Z) :
  0 <= v < 2 ^ (8 * Z.of_nat n) -> from_be (be_bytes n v) = v.
Proof. intros Hv. rewrite from_be_be_bytes. apply Z.mod_small, Hv. Qed.

Lemma pack_unsigned_ok (size : nat) (v : Z) :
  0 <= v < 2 ^ (8 * Z.of_nat size) -> pack_unsigned size v = Ok (be_bytes size v).
Proof.
  intros Hv. unfold pack_unsigned.
  destruct (Z.leb_spec 0 v); [|lia].
  destruct (Z.ltb_spec v (2 ^ (8 * Z.of_nat size))); [reflexivity | lia].
Qed.

Lemma encode_stream_bytes (address bits v : Z) :
  supported_width bits ->
  0 <= address < 2 ^ 16 ->
  0 <= v < 2 ^ bits ->
  encode_stream address bits v
  = Ok (be_bytes 2 address ++ [bits / 8] ++ value_bytes bits v).
Proof.
  intros Hbits Haddr Hv. unfold supported_width in Hbits. simpl in Hbits.
  assert (Hshift : 0 <= Z.shiftl v 8 < 2 ^ 32 -> 
                   pack_unsigned 4 (Z.shiftl v 8) = Ok (be_bytes 4 (Z.shiftl v 8)))
    by (exact (pack_unsigned_ok 4 (Z.shiftl v 8))).
  destruct Hbits as [<-|[<-|[<-|[<-|[]]]]];
    unfold encode_stream, struct_pack_HB, value_bytes, bits_to_bytes;
    cbn [Z.eqb Pos.eqb code_size String.eqb Ascii.eqb Bool.eqb bind];
    rewrite (pack_unsigned_ok 2 address) by exact Haddr; cbn [bind];
    rewrite (pack_unsigned_ok 1) by (vm_compute; split; [discriminate | reflexivity]);
    cbn [bind].
  - rewrite Z.shiftl_0_r, (pack_unsigned_ok 1 v) by exact Hv. reflexivity.
  - rewrite Z.shiftl_0_r, (pack_unsigned_ok 2 v) by exact Hv. reflexivity.
  - rewrite Hshift; [reflexivity|].
    rewrite Z.shiftl_mul_pow2 by lia.
    change (2 ^ 8) with 256. change (2 ^ 32) with 4294967296.
    change (2 ^ 24) with 16777216 in Hv. lia.
  - rewrite Z.shiftl_0_r, (pack_unsigned_ok 4 v) by exact Hv. reflexivity.
Qed.

Lemma registers_parse_model_stream layouts (seq : layout) address n payload :
  0 <= address < 2 ^ 16 ->
  dict_get Z.eqb layouts address = Some seq ->
  layout_bits seq mod 8 = 0 ->
  (Z.to_nat (layout_bits seq / 8) <= List.length payload)%nat ->
  registers_parse_model layouts (be_bytes 2 address ++ [n] ++ payload)
  = Ok {| addr := address; len := n;
          body := split_fields seq (layout_bits seq)
                    (from_be (firstn (Z.to_nat (layout_bits seq / 8)) payload)) |}.
Proof.
  intros Haddr Hget Hmod Hlen.
  pose proof (from_be_be_bytes_small 2 address Haddr) as Hfrom.
  change (be_bytes 2 address ++ [n] ++ payload)
    with (Z.land (Z.shiftr address (8 * Z.of_nat 1)) 0xFF
            :: Z.land (Z.shiftr address (8 * Z.of_nat 0)) 0xFF :: n :: payload).
  change (be_bytes 2 address)
    with [Z.land (Z.shiftr address (8 * Z.of_nat 1)) 0xFF;
          Z.land (Z.shiftr address (8 * Z.of_nat 0)) 0xFF] in Hfrom.
  unfold registers_parse_model. rewrite Hfrom.
  unfold dict_getitem. rewrite Hget. cbn [bind].
  rewrite Hmod, Z.eqb_refl, andb_true_r.
  destruct (Nat.leb_spec (Z.to_nat (layout_bits seq / 8)) (List.length payload));
    [reflexivity | lia].
Qed.

Lemma firstn_be_bytes (n : nat) (v : Z) : firstn n (be_bytes n v) = be_bytes n v.
Proof.
  pose proof (firstn_all (be_bytes n v)) as H.
  rewrite length_be_bytes in H. exact H.
Qed.

Lemma firstn_value_bytes (bits v : Z) :
  supported_width bits ->
  0 <= v < 2 ^ bits ->
  (Z.to_nat (bits / 8) <= List.length (value_bytes bits v))%nat
  /\ from_be (firstn (Z.to_nat (bits / 8)) (value_bytes bits v)) = v.
Proof.
  intros Hbits Hv. unfold supported_width in Hbits. simpl in Hbits.
  destruct Hbits as [<-|[<-|[<-|[<-|[]]]]]; unfold value_bytes;
    cbn [Z.eqb Pos.eqb].
  - change (Z.to_nat (8 / 8)) with 1%nat.
    rewrite firstn_be_bytes, length_be_bytes.
    split; [lia | apply from_be_be_bytes_small, Hv].
  - change (Z.to_nat (16 / 8)) with 2%nat.
    rewrite firstn_be_bytes, length_be_bytes.
    split; [lia | apply from_be_be_bytes_small, Hv].
  - change (Z.to_nat (24 / 8)) with 3%nat.
    rewrite be_bytes_snoc, Z.shiftr_shiftl_l, Z.shiftl_0_r by lia.
    rewrite length_app, length_be_bytes.
    rewrite firstn_app, firstn_be_bytes, length_be_bytes, Nat.sub_diag.
    cbn [firstn]. rewrite app_nil_r.
    split; [simpl; lia | apply from_be_be_bytes_small, Hv].
  - change (Z.to_nat (32 / 8)) with 4%nat.
    rewrite firstn_be_bytes, length_be_bytes.
    split; [lia | apply from_be_be_bytes_small, Hv].
Qed.

(** C1: for a width of 8, 16 or 32 bits the stream is the 2-byte address,
    the length in bytes and the value, most significant byte first, and for
    24 bits the value shifted left by 8 bits on 4 bytes; parsing the stream
    gives back the address and the length, and fields that spell the very
    value that was encoded, for the three widths and for 24 bits alike. *)
Theorem encode_decode_roundtrip (layouts : list (Z * layout)) (seq : layout)
    (address bits v : Z) :
  dict_get Z.eqb layouts address = Some seq ->
  NoDup (keys seq) ->
  Forall (fun f => 0 <= snd f) seq ->
  layout_bits seq = bits ->
  supported_width bits ->
  0 <= address < 2 ^ 16 ->
  0 <= v < 2 ^ bits ->
  encode_stream address bits v
  = Ok (be_bytes 2 address ++ [bits / 8] ++ value_bytes bits v)
  /\ exists r,
       (stream <- encode_stream address bits v ;;
        registers_parse_model layouts stream) = Ok r
       /\ addr r = address
       /\ len r = bits / 8
       /\ join_fields seq (body r) 0 = Ok v.
Proof.
  intros Hget ND Hpos Hsum Hbits Haddr Hv. subst bits.
  rewrite (encode_stream_bytes address _ v Hbits Haddr Hv).
  split; [reflexivity|]. cbn [bind].
  destruct (firstn_value_bytes _ v Hbits Hv) as [Hlen Hfrom].
  assert (Hmod : layout_bits seq mod 8 = 0).
  { unfold supported_width in Hbits. simpl in Hbits.
    destruct Hbits as [<-|[<-|[<-|[<-|[]]]]]; reflexivity. }
  rewrite (registers_parse_model_stream layouts seq address _ _ Haddr Hget Hmod Hlen).
  eexists. split; [reflexivity|]. cbn [addr len body].
  split; [reflexivity|]. split; [reflexivity|].
  rewrite Hfrom, (join_split_fields seq v 0 ND Hpos).
  pose proof (layout_bits_nonneg seq Hpos) as Hnonneg.
  rewrite Z.shiftl_0_l, Z.lor_0_l, Z.land_ones by exact Hnonneg.
  rewrite Z.mod_small by exact Hv. reflexivity.
Qed.

Lemma encode_decode_roundtrip_witness :
  encode_stream 0x30FA 24 0xABCDEF = Ok [0x30; 0xFA; 3; 0xAB; 0xCD; 0xEF; 0]
  /\ exists r,
       (stream <- encode_stream 0x30FA 24 0xABCDEF ;;
        registers_parse_model Sample.layouts stream) = Ok r
       /\ addr r = 0x30FA
       /\ len r = 3
       /\ join_fields [("mode", 4); ("threshold", 12); ("reserved", 8)] (body r) 0
          = Ok 0xABCDEF.
Proof.
  apply (encode_decode_roundtrip Sample.layouts
           [("mode", 4); ("threshold", 12); ("reserved", 8)] 0x30FA 24 0xABCDEF).
  - reflexivity.
  - repeat constructor; simpl; intuition discriminate.
  - repeat constructor; simpl; lia.
  - reflexivity.
  - unfold supported_width. simpl. tauto.
  - split; [lia | reflexivity].
  - split; [lia | reflexivity].
Defined.

Lemma register_read_length_check_witness :
  length_mismatch
    (register_read Sample.mapping Sample.short_device int_from_bytes_model
       (registers_parse_model Sample.layouts) (Some "main::vendor_id") None 1 [])
  /\ ~ length_mismatch
        (register_read Sample.mapping Sample.speed_device int_from_bytes_model
           (registers_parse_model Sample.layouts) (Some "port::device_speed")
           None 1 []).
Proof.
  split.
  - apply (proj1 (proj1 (register_read_length_check Sample.mapping
                           Sample.short_device int_from_bytes_model
                           (registers_parse_model Sample.layouts) [])
                    "main::vendor_id" None 1 0x3000 16 "little" [0x12]
                    eq_refl eq_refl)).
    vm_compute. discriminate.
  - apply (proj2 (proj1 (register_read_length_check Sample.mapping
                           Sample.speed_device int_from_bytes_model
                           (registers_parse_model Sample.layouts) [])
                    "port::device_speed" None 1 0x3104 8 "big" [0x78]
                    eq_refl eq_refl)).
    + reflexivity.
    + apply int_from_bytes_model_no_mismatch.
    + apply registers_parse_model_no_mismatch.
Defined.

(** * Further properties of the driver *)

(** ** Bit helpers *)

Lemma shift_one_ok (bit : Z) : 0 <= bit -> shift_one bit = Ok (Z.shiftl 1 bit).
Proof.
  intros Hbit. unfold shift_one.
  destruct (Z.ltb_spec bit 0); [lia | reflexivity].
Qed.

Lemma testbit_shift_one (bit i : Z) :
  0 <= bit -> 0 <= i -> Z.testbit (Z.shiftl 1 bit) i = (i =? bit).
Proof.
  intros Hbit Hi. rewrite Z.shiftl_spec by exact Hi.
  destruct (Z.eqb_spec i bit) as [->|Hne].
  - rewrite Z.sub_diag. reflexivity.
  - destruct (Z.lt_ge_cases i bit).
    + apply Z.testbit_neg_r. lia.
    + replace (i - bit) with (Z.succ (i - bit - 1)) by lia.
      change 1 with (2 * 0 + 1). rewrite Z.testbit_odd_succ by lia.
      apply Z.testbit_0_l.
Qed.

Lemma land_shift_one (value bit : Z) :
  0 <= bit ->
  Z.land value (Z.shiftl 1 bit) = if Z.testbit value bit then 2 ^ bit else 0.
Proof.
  intros Hbit. apply Z.bits_inj'. intros i Hi.
  rewrite Z.land_spec, testbit_shift_one by assumption.
  destruct (Z.eqb_spec i bit) as [->|Hne].
  - rewrite andb_true_r. destruct (Z.testbit value bit) eqn:E.
    + symmetry. apply Z.pow2_bits_true, Hbit.
    + symmetry. apply Z.testbit_0_l.
  - rewrite andb_false_r. destruct (Z.testbit value bit).
    + symmetry. apply Z.pow2_bits_false. lia.
    + symmetry. apply Z.testbit_0_l.
Qed.

Lemma get_bit_testbit (value bit : Z) :
  0 <= bit -> get_bit value bit = Ok (Z.testbit value bit).
Proof.
  intros Hbit. unfold get_bit. rewrite shift_one_ok by exact Hbit. cbn [bind].
  rewrite land_shift_one by exact Hbit.
  destruct (Z.testbit value bit); [|reflexivity].
  f_equal. apply Z.gtb_lt. apply Z.pow_pos_nonneg; lia.
Qed.

(** X1: [get_bit] answers whether the bit of that index is set in the
    two's complement of the value, for every integer value and every index
    from 0 on; a negative index raises. *)
Theorem get_bit_reads_the_bit (value bit : Z) :
  (0 <= bit -> get_bit value bit = Ok (Z.testbit value bit))
  /\ (bit < 0 -> exists m, get_bit value bit = Raise (ValueError m)).
Proof.
  split; [apply get_bit_testbit|].
  intros Hbit. unfold get_bit, shift_one.
  destruct (Z.ltb_spec bit 0); [|lia]. eexists. reflexivity.
Qed.

Lemma get_bit_reads_the_bit_witness :
  get_bit (-8) 100 = Ok true /\ exists m, get_bit 5 (-1) = Raise (ValueError m).
Proof.
  split.
  - apply (proj1 (get_bit_reads_the_bit (-8) 100)). lia.
  - apply (proj2 (get_bit_reads_the_bit 5 (-1))). lia.
Defined.

(** X2: after [set_bit] the bit is set and every other bit reads as before. *)
Theorem get_bit_after_set_bit (value bit other : Z) :
  0 <= bit -> 0 <= other ->
  (w <- set_bit value bit ;; get_bit w other)
  = Ok ((other =? bit) || Z.testbit value other).
Proof.
  intros Hbit Hother. unfold set_bit. rewrite shift_one_ok by exact Hbit.
  cbn [bind]. rewrite (get_bit_testbit _ other Hother).
  rewrite Z.lor_spec, testbit_shift_one by assumption.
  rewrite orb_comm. reflexivity.
Qed.

Lemma get_bit_after_set_bit_witness :
  (w <- set_bit 0x50 3 ;; get_bit w 3) = Ok true.
Proof. apply (get_bit_after_set_bit 0x50 3 3); lia. Defined.

(** X3: after [clear_bit] the bit is clear and every other bit reads as
    before. *)
Theorem get_bit_after_clear_bit (value bit other : Z) :
  0 <= bit -> 0 <= other ->
  (w <- clear_bit value bit ;; get_bit w other)
  = Ok (negb (other =? bit) && Z.testbit value other).
Proof.
  intros Hbit Hother. unfold clear_bit. rewrite shift_one_ok by exact Hbit.
  cbn [bind]. rewrite (get_bit_testbit _ other Hother).
  rewrite Z.land_spec, Z.lnot_spec, testbit_shift_one by assumption.
  rewrite andb_comm. reflexivity.
Qed.

Lemma get_bit_after_clear_bit_witness :
  (w <- clear_bit 0x58 3 ;; get_bit w 4) = Ok true.
Proof. apply (get_bit_after_clear_bit 0x58 3 4); lia. Defined.

(** X4: setting a bit that was clear and clearing it again gives the value
    back, and so does clearing a bit that was set and setting it again. *)
Theorem set_and_clear_undo (value bit : Z) :
  0 <= bit ->
  (Z.testbit value bit = false ->
   (w <- set_bit value bit ;; clear_bit w bit) = Ok value)
  /\ (Z.testbit value bit = true ->
      (w <- clear_bit value bit ;; set_bit w bit) = Ok value).
Proof.
  intros Hbit. unfold set_bit, clear_bit. rewrite shift_one_ok by exact Hbit.
  cbn [bind].
  split; intros Hv; f_equal; apply Z.bits_inj'; intros i Hi.
  - rewrite Z.land_spec, Z.lor_spec, Z.lnot_spec, testbit_shift_one by assumption.
    destruct (Z.eqb_spec i bit) as [->|_]; [rewrite Hv; reflexivity|].
    cbn [negb]. rewrite orb_false_r, andb_true_r. reflexivity.
  - rewrite Z.lor_spec, Z.land_spec, Z.lnot_spec, testbit_shift_one by assumption.
    destruct (Z.eqb_spec i bit) as [->|_]; [rewrite Hv; reflexivity|].
    cbn [negb]. rewrite orb_false_r, andb_true_r. reflexivity.
Qed.

Lemma set_and_clear_undo_witness :
  (w <- set_bit 0x50 3 ;; clear_bit w 3) = Ok 0x50.
Proof.
  apply (proj1 (set_and_clear_undo 0x50 3 ltac:(lia))). reflexivity.
Defined.

(** ** More on the catalog *)

Lemma in_keys_dict_set {V : Type} (d : list (string * V)) (k k' : string) (v : V) :
  In k' (keys (dict_set String.eqb d k v)) -> k' = k \/ In k' (keys d).
Proof.
  unfold keys. induction d as [|[k0 v0] d IH]; simpl.
  - intros [H|[]]; auto.
  - destruct (String.eqb k0 k); simpl; intros [H|H]; auto.
    destruct (IH H); auto.
Qed.

Lemma NoDup_keys_dict_set {V : Type} (d : list (string * V)) (k : string) (v : V) :
  NoDup (keys d) -> NoDup (keys (dict_set String.eqb d k v)).
Proof.
  unfold keys. induction d as [|[k0 v0] d IH]; simpl; intros ND.
  - constructor; [intros [] | constructor].
  - inversion ND as [|? ? Hnot ND']; subst.
    destruct (String.eqb k0 k) eqn:E; simpl.
    + constructor; assumption.
    + constructor; [|apply IH, ND'].
      intros Hin. apply in_keys_dict_set in Hin. destruct Hin as [->|Hin].
      * rewrite String.eqb_refl in E. discriminate.
      * apply Hnot, Hin.
Qed.

Lemma build_entries_NoDup_keys (def : definition) (items : list (string * Z)) :
  forall acc mapping,
    build_entries def items acc = Ok mapping ->
    NoDup (keys acc) -> NoDup (keys mapping).
Proof.
  induction items as [|[k v] items IH]; simpl; intros acc mapping Hrun ND.
  - inversion Hrun; subst. exact ND.
  - destruct (get_register_length def k) as [bits|]; [|discriminate].
    destruct (get_register_endian def k) as [endian|]; [|discriminate].
    cbn [bind] in Hrun. apply (IH _ _ Hrun). apply NoDup_keys_dict_set, ND.
Qed.

Lemma in_invert_from (cases : list (Z * string)) :
  forall (acc : list (string * Z)) key a,
    In (key, a)
      (fold_left (fun acc kv => dict_set String.eqb acc (snd kv) (fst kv))
         cases acc) ->
    In (key, a) acc \/ In (a, key) cases.
Proof.
  induction cases as [|[a0 n0] cases IH]; simpl; intros acc key a Hin.
  - now left.
  - destruct (IH _ _ _ Hin) as [Hacc|Hcases]; [|auto].
    apply in_dict_set in Hacc. destruct Hacc as [[-> ->]|Hacc]; auto.
Qed.

Lemma get_register_endian_values (def : definition) (key endian : string) :
  get_register_endian def key = Ok endian -> endian = "big" \/ endian = "little".
Proof.
  unfold get_register_endian.
  destruct (list_getitem _ 0) as [k0|]; [|discriminate]. cbn [bind].
  destruct (dict_getitem _ def k0) as [doc|]; [|discriminate]. cbn [bind].
  destruct (list_getitem _ 1) as [k1|]; [|discriminate]. cbn [bind].
  destruct (dict_getitem _ (types doc) k1) as [obj|]; [|discriminate]. cbn [bind].
  destruct (meta obj) as [m|]; [|intros H; inversion H; auto].
  destruct (dict_get _ m "endian") as [value|]; [|intros H; inversion H; auto].
  destruct (String.eqb value "le"); intros H; inversion H; auto.
Qed.

Lemma build_entries_sound (def : definition) (items : list (string * Z)) :
  forall acc mapping,
    build_entries def items acc = Ok mapping ->
    forall name address bits endian,
      In (name, (address, bits, endian)) mapping ->
      In (name, (address, bits, endian)) acc
      \/ exists key,
           In (key, address) items
           /\ name = replace key "usb4715_" ""
           /\ get_register_length def key = Ok bits
           /\ get_register_endian def key = Ok endian.
Proof.
  induction items as [|[k v] items IH]; simpl;
    intros acc mapping Hrun name address bits endian Hin.
  - inversion Hrun; subst. now left.
  - destruct (get_register_length def k) as [b|] eqn:Hlen; [|discriminate].
    destruct (get_register_endian def k) as [e|] eqn:Hend; [|discriminate].
    cbn [bind] in Hrun.
    destruct (IH _ _ Hrun _ _ _ _ Hin) as [Hacc|[key [Hitem Hrest]]].
    + apply in_dict_set in Hacc. destruct Hacc as [[-> Heq]|Hacc].
      * inversion Heq; subst. right. exists k. auto.
      * now left.
    + right. exists key. auto.
Qed.

(** X5: every entry of a built catalog comes from the case table: its
    address is a key of the table, its name is the case name without the
    prefix [usb4715_], its width is the sum of the field widths of the type
    and its byte order, big or little, is the one read from the type. *)
Theorem catalog_entries_come_from_cases (def : definition)
    (cases : list (Z * string)) (mapping : catalog)
    (name : string) (address bits : Z) (endian : string) :
  register_cases def = Ok cases ->
  build_mapping def = Ok mapping ->
  In (name, (address, bits, endian)) mapping ->
  exists key,
    In (address, key) cases
    /\ name = replace key "usb4715_" ""
    /\ get_register_length def key = Ok bits
    /\ get_register_endian def key = Ok endian
    /\ (endian = "big" \/ endian = "little").
Proof.
  intros Hcases Hbuild Hin. unfold build_mapping in Hbuild.
  rewrite Hcases in Hbuild. cbn [bind] in Hbuild.
  destruct (build_entries_sound def _ _ _ Hbuild _ _ _ _ Hin)
    as [[]|[key [Hitem [Hname [Hlen Hend]]]]].
  exists key. repeat split; try assumption.
  - unfold invert in Hitem. apply in_invert_from in Hitem.
    destruct Hitem as [[]|Hitem]. exact Hitem.
  - apply (get_register_endian_values def key endian Hend).
Qed.

Lemma catalog_entries_come_from_cases_witness :
  exists key,
    In (0x3000, key)
      [(0x3000, "usb4715_main::odd"); (0x3104, "usb4715_port::device_speed")]
    /\ "main::odd" = replace key "usb4715_" ""
    /\ get_register_length Sample.documents key = Ok 12
    /\ get_register_endian Sample.documents key = Ok "little"
    /\ ("little" = "big" \/ "little" = "little").
Proof.
  apply (catalog_entries_come_from_cases Sample.documents _ 
           [("main::odd", (0x3000, 12, "little"));
            ("port::device_speed", (0x3104, 8, "big"))]
           "main::odd" 0x3000 12 "little"); [reflexivity | reflexivity |].
  simpl. tauto.
Defined.

(** X6: a built catalog has no two entries with the same name and, the
    case table being a dictionary, no two entries with the same address. *)
Theorem built_catalog_is_unambiguous (def : definition)
    (cases : list (Z * string)) (mapping : catalog) :
  register_cases def = Ok cases ->
  NoDup (keys cases) ->
  build_mapping def = Ok mapping ->
  NoDup (keys mapping) /\ NoDup (held entry_address mapping).
Proof.
  intros Hcases ND Hbuild. unfold build_mapping in Hbuild.
  rewrite Hcases in Hbuild. cbn [bind] in Hbuild. split.
  - apply (build_entries_NoDup_keys def _ _ _ Hbuild). constructor.
  - apply (build_entries_NoDup def (invert cases) [] mapping Hbuild).
    + apply invert_NoDup, ND.
    + constructor.
    + intros x _ [].
Qed.

Lemma built_catalog_is_unambiguous_witness :
  NoDup (keys [("main::odd", (0x3000, 12, "little"));
               ("port::device_speed", (0x3104, 8, "big"))])
  /\ NoDup (held entry_address
              [("main::odd", (0x3000, 12, "little"));
               ("port::device_speed", (0x3104, 8, "big"))]).
Proof.
  apply (built_catalog_is_unambiguous Sample.documents
           [(0x3000, "usb4715_main::odd"); (0x3104, "usb4715_port::device_speed")]).
  - reflexivity.
  - repeat constructor; simpl; intuition discriminate.
  - reflexivity.
Defined.

Lemma find_name_in (mapping : catalog) (register : Z) (name : string) :
  find_name mapping register = Ok name ->
  exists bits endian, In (name, (register, bits, endian)) mapping.
Proof.
  induction mapping as [|[n0 [[a0 b0] e0]] mapping IH]; cbn [find_name];
    [discriminate|].
  destruct (Z.eqb_spec a0 register) as [->|Hne].
  - intros H. inversion H; subst. exists b0, e0. now left.
  - intros H. destruct (IH H) as [b [e Hin]]. exists b, e. now right.
Qed.

(** X7: [find_name] returns the name of an entry with the address asked
    for whenever there is one, and raises the unknown-address error exactly
    when no entry has that address. *)
Theorem find_name_outcomes (mapping : catalog) (register : Z) :
  (forall name, find_name mapping register = Ok name ->
                exists bits endian, In (name, (register, bits, endian)) mapping)
  /\ (In register (held entry_address mapping) ->
      exists name, find_name mapping register = Ok name)
  /\ (~ In register (held entry_address mapping) ->
      find_name mapping register
      = Raise (ValueError (UnknownRegisterAddress register))).
Proof.
  split; [intros name; apply find_name_in|].
  induction mapping as [|[n0 [[a0 b0] e0]] mapping [IH2 IH3]].
  - split; [intros [] | reflexivity].
  - cbn [find_name]. unfold held in *. cbn [map snd entry_address fst].
    destruct (Z.eqb_spec a0 register) as [->|Hne]; split.
    + intros _. eexists. reflexivity.
    + intros Hnot. exfalso. apply Hnot. now left.
    + intros [Heq|Hin]; [contradiction | apply IH2, Hin].
    + intros Hnot. apply IH3. intros Hin. apply Hnot. now right.
Qed.

Lemma find_name_outcomes_witness :
  find_name Sample.mapping 0x3001
  = Raise (ValueError (UnknownRegisterAddress 0x3001)).
Proof.
  apply (proj2 (proj2 (find_name_outcomes Sample.mapping 0x3001))).
  unfold held. simpl. intuition discriminate.
Defined.

(** X8: the other way round from the round trip by name: in a built
    catalog, the name [find_name] gives for an address is a name under
    which the catalog stores that very address, so [find] on it returns the
    address again whenever the width of the entry is supported. *)
Theorem find_of_find_name (def : definition) (mapping : catalog)
    (register : Z) (name : string) :
  build_mapping def = Ok mapping ->
  find_name mapping register = Ok name ->
  exists bits endian,
    dict_get String.eqb mapping name = Some (register, bits, endian)
    /\ (supported_width bits -> find mapping name = Ok (register, bits, endian)).
Proof.
  intros Hbuild Hname.
  assert (ND : NoDup (keys mapping)).
  { unfold build_mapping in Hbuild.
    destruct (register_cases def) as [cases|]; [|discriminate].
    cbn [bind] in Hbuild.
    apply (build_entries_NoDup_keys def _ _ _ Hbuild). constructor. }
  destruct (find_name_in mapping register name Hname) as [bits [endian Hin]].
  exists bits, endian.
  assert (Hget : dict_get String.eqb mapping name = Some (register, bits, endian))
    by (apply in_dict_get; assumption).
  split; [exact Hget|].
  intros Hw. unfold find, dict_contains, dict_getitem. rewrite Hget. cbn [bind].
  apply supported_width_test in Hw. rewrite Hw. reflexivity.
Qed.

Lemma find_of_find_name_witness :
  exists bits endian,
    dict_get String.eqb
      [("main::odd", (0x3000, 12, "little"));
       ("port::device_speed", (0x3104, 8, "big"))] "port::device_speed"
    = Some (0x3104, bits, endian)
    /\ (supported_width bits ->
        find [("main::odd", (0x3000, 12, "little"));
              ("port::device_speed", (0x3104, 8, "big"))] "port::device_speed"
        = Ok (0x3104, bits, endian)).
Proof.
  apply (find_of_find_name Sample.documents _ 0x3104 "port::device_speed");
    reflexivity.
Defined.

(** ** More on the stream *)

Lemma pack_unsigned_inv (size : nat) (v : Z) (l : list Z) :
  pack_unsigned size v = Ok l -> 0 <= v < 2 ^ (8 * Z.of_nat size).
Proof.
  unfold pack_unsigned.
  destruct (Z.leb_spec 0 v); cbn [andb]; [|discriminate].
  destruct (Z.ltb_spec v (2 ^ (8 * Z.of_nat size))); [|discriminate].
  intros _. split; assumption.
Qed.

Lemma struct_pack_HB_inv (code : string) (size : nat) (address num value : Z)
    (s : list Z) :
  code_size code = Ok size ->
  struct_pack_HB code address num value = Ok s ->
  0 <= address < 2 ^ 16 /\ 0 <= value < 2 ^ (8 * Z.of_nat size).
Proof.
  intros Hsize. unfold struct_pack_HB. rewrite Hsize. cbn [bind].
  destruct (pack_unsigned 2 address) as [a|] eqn:Ha; [|discriminate].
  cbn [bind]. destruct (pack_unsigned 1 num) as [n|]; [|discriminate].
  cbn [bind]. destruct (pack_unsigned size value) as [v|] eqn:Hv; [|discriminate].
  intros _. split.
  - exact (pack_unsigned_inv 2 address a Ha).
  - exact (pack_unsigned_inv size value v Hv).
Qed.

Lemma encode_stream_ok_inv (address bits value : Z) (s : list Z) :
  encode_stream address bits value = Ok s ->
  supported_width bits /\ 0 <= address < 2 ^ 16 /\ 0 <= value < 2 ^ bits.
Proof.
  unfold encode_stream, supported_width.
  destruct (Z.eqb_spec bits 8) as [->|H8].
  { intros H. apply (struct_pack_HB_inv "B" 1 _ _ _ _ eq_refl) in H.
    rewrite Z.shiftl_0_r in H. simpl. tauto. }
  destruct (Z.eqb_spec bits 16) as [->|H16].
  { intros H. apply (struct_pack_HB_inv "H" 2 _ _ _ _ eq_refl) in H.
    rewrite Z.shiftl_0_r in H. simpl. tauto. }
  destruct (Z.eqb_spec bits 24) as [->|H24].
  { intros H. apply (struct_pack_HB_inv "L" 4 _ _ _ _ eq_refl) in H.
    rewrite Z.shiftl_mul_pow2 in H by lia.
    change (2 ^ (8 * Z.of_nat 4)) with 4294967296 in H.
    change (2 ^ 8) with 256 in H. change (2 ^ 24) with 16777216.
    simpl. split; [tauto|]. split; [tauto|]. lia. }
  destruct (Z.eqb_spec bits 32) as [->|H32].
  { intros H. apply (struct_pack_HB_inv "L" 4 _ _ _ _ eq_refl) in H.
    rewrite Z.shiftl_0_r in H. simpl. tauto. }
  discriminate.
Qed.

(** X9: the stream exists exactly when the width is 8, 16, 24 or 32 and
    the address and the value fit their fields: a value too wide for the
    register is refused, never cut. *)
Theorem encode_stream_succeeds_iff (address bits value : Z) :
  (exists s, encode_stream address bits value = Ok s)
  <-> supported_width bits /\ 0 <= address < 2 ^ 16 /\ 0 <= value < 2 ^ bits.
Proof.
  split.
  - intros [s Hs]. exact (encode_stream_ok_inv _ _ _ _ Hs).
  - intros [Hbits [Haddr Hv]]. eexists.
    apply (encode_stream_bytes address bits value Hbits Haddr Hv).
Qed.

Lemma encode_stream_succeeds_iff_witness :
  exists s, encode_stream 0x3000 16 0x0424 = Ok s.
Proof.
  apply (proj2 (encode_stream_succeeds_iff 0x3000 16 0x0424)).
  split; [unfold supported_width; simpl; tauto|].
  split; (split; [lia | reflexivity]).
Defined.

Lemma length_value_bytes (bits v : Z) :
  supported_width bits ->
  Z.of_nat (List.length (value_bytes bits v)) = if bits =? 24 then 4 else bits / 8.
Proof.
  unfold supported_width. simpl.
  intros [<-|[<-|[<-|[<-|[]]]]]; unfold value_bytes; cbn [Z.eqb Pos.eqb];
    rewrite length_be_bytes; reflexivity.
Qed.

(** X10: a stream has three header bytes, the third being the width in
    bytes, then one value byte per byte of width, except that a 24-bit
    register takes four value bytes, the last of which is zero. *)
Theorem encode_stream_shape (address bits value : Z) (s : list Z) :
  encode_stream address bits value = Ok s ->
  Z.of_nat (List.length s) = 3 + (if bits =? 24 then 4 else bits / 8)
  /\ nth 2 s 0 = bits / 8
  /\ (bits = 24 -> nth 6 s (-1) = 0).
Proof.
  intros Hs. destruct (encode_stream_ok_inv _ _ _ _ Hs) as [Hbits [Haddr Hv]].
  assert (Es : s = be_bytes 2 address ++ [bits / 8] ++ value_bytes bits value)
    by (rewrite (encode_stream_bytes address bits value Hbits Haddr Hv) in Hs;
        congruence).
  subst s. clear Hs.
  split; [|split].
  - rewrite !length_app, length_be_bytes. cbn [List.length].
    rewrite !Nat2Z.inj_add, length_value_bytes by exact Hbits. lia.
  - reflexivity.
  - intros ->. unfold value_bytes. cbn [Z.eqb Pos.eqb be_bytes app nth].
    change (8 * Z.of_nat 0) with 0. rewrite Z.shiftr_0_r.
    change 0xFF with (Z.ones 8). rewrite Z.land_ones, Z.shiftl_mul_pow2 by lia.
    apply Z.mod_mul. discriminate.
Qed.

Lemma encode_stream_shape_witness :
  Z.of_nat (List.length [0x30; 0xFA; 3; 0xAB; 0xCD; 0xEF; 0]) = 3 + 4
  /\ nth 2 [0x30; 0xFA; 3; 0xAB; 0xCD; 0xEF; 0] 0 = 24 / 8
  /\ (24 = 24 -> nth 6 [0x30; 0xFA; 3; 0xAB; 0xCD; 0xEF; 0] (-1) = 0).
Proof.
  apply (encode_stream_shape 0x30FA 24 0xABCDEF). reflexivity.
Defined.

Lemma firstn_app_exact {A : Type} (l l' : list A) :
  firstn (List.length l) (l ++ l') = l.
Proof.
  rewrite firstn_app, firstn_all, Nat.sub_diag. cbn [firstn]. apply app_nil_r.
Qed.

(** X11: the stream tells the address, the width and the value apart: two
    calls that give the same stream were given the same three arguments. *)
Theorem encode_stream_injective (address address' bits bits' value value' : Z)
    (s : list Z) :
  encode_stream address bits value = Ok s ->
  encode_stream address' bits' value' = Ok s ->
  address = address' /\ bits = bits' /\ value = value'.
Proof.
  intros Hs Hs'.
  destruct (encode_stream_ok_inv _ _ _ _ Hs) as [Hbits [Haddr Hv]].
  destruct (encode_stream_ok_inv _ _ _ _ Hs') as [Hbits' [Haddr' Hv']].
  assert (Heq : be_bytes 2 address ++ [bits / 8] ++ value_bytes bits value
                = be_bytes 2 address' ++ [bits' / 8] ++ value_bytes bits' value')
    by (rewrite (encode_stream_bytes _ _ _ Hbits Haddr Hv) in Hs;
        rewrite (encode_stream_bytes _ _ _ Hbits' Haddr' Hv') in Hs';
        congruence).
  clear Hs Hs'.
  assert (Ha : address = address').
  { rewrite <- (from_be_be_bytes_small 2 address Haddr).
    rewrite <- (from_be_be_bytes_small 2 address' Haddr').
    f_equal.
    pose proof (firstn_app_exact (be_bytes 2 address)
                  ([bits / 8] ++ value_bytes bits value)) as H1.
    pose proof (firstn_app_exact (be_bytes 2 address')
                  ([bits' / 8] ++ value_bytes bits' value')) as H2.
    rewrite length_be_bytes in H1, H2. rewrite <- H1, <- H2, Heq. reflexivity. }
  subst address'. apply app_inv_head in Heq.
  inversion Heq as [[Hn Hvb]].
  assert (Hb : bits = bits').
  { unfold supported_width in Hbits, Hbits'. simpl in Hbits, Hbits'.
    destruct Hbits as [<-|[<-|[<-|[<-|[]]]]];
      destruct Hbits' as [<-|[<-|[<-|[<-|[]]]]];
      try reflexivity; discriminate Hn. }
  subst bits'. split; [reflexivity|]. split; [reflexivity|].
  rewrite <- (proj2 (firstn_value_bytes bits value Hbits Hv)).
  rewrite <- (proj2 (firstn_value_bytes bits value' Hbits Hv')).
  rewrite Hvb. reflexivity.
Qed.

Lemma encode_stream_injective_witness :
  0x3104 = 0x3104 /\ 8 = 8 /\ 0x78 = 0x78.
Proof.
  apply (encode_stream_injective 0x3104 0x3104 8 8 0x78 0x78
           [0x31; 0x04; 1; 0x78]); reflexivity.
Defined.

(** ** More on reads *)

Lemma parse_register_outcome (registers_parse : list Z -> result DecodedRegister)
    (name : string) (stream : list Z) (h : heap) :
  parse_register registers_parse name stream h
  = match registers_parse stream with
    | Ok o =>
        Ok (List.length h,
            h ++ (if str_in name REGISTER_NEEDS_PORT_REMAP
                  then [with_body o (remap_body (body o) (body o)); o]
                  else [o]))
    | Raise e => Raise e
    end.
Proof.
  destruct (registers_parse stream) as [o|e] eqn:Hparse.
  - destruct (str_in name REGISTER_NEEDS_PORT_REMAP) eqn:Hname.
    + apply parse_register_run; [apply str_in_iff, Hname | exact Hparse].
    + unfold parse_register, bindM at 1, lift. rewrite Hparse.
      unfold bindM at 1, alloc. unfold bindM.
      rewrite port_remap_other_names; [reflexivity|].
      intros Hin. apply str_in_iff in Hin. congruence.
  - unfold parse_register, bindM at 1, lift. rewrite Hparse. reflexivity.
Qed.

(** X12: [parse_register] fails only when the parser fails.  Otherwise it
    returns a new object, leaves the objects already in the store as they
    were, and its object has the address, the length and every key of the
    parsed one; for a register outside the remap list it is the parsed
    object itself. *)
Theorem parse_register_adds_one_object
    (registers_parse : list Z -> result DecodedRegister)
    (name : string) (stream : list Z) (h : heap) (o : DecodedRegister) :
  registers_parse stream = Ok o ->
  exists o' extra,
    parse_register registers_parse name stream h
    = Ok (List.length h, h ++ o' :: extra)
    /\ addr o' = addr o
    /\ len o' = len o
    /\ (forall key, In key (keys (body o)) -> In key (keys (body o')))
    /\ (~ In name REGISTER_NEEDS_PORT_REMAP -> o' = o /\ extra = []).
Proof.
  intros Hparse. rewrite parse_register_outcome, Hparse.
  destruct (str_in name REGISTER_NEEDS_PORT_REMAP) eqn:Hname.
  - exists (with_body o (remap_body (body o) (body o))), [o].
    split; [reflexivity|]. split; [reflexivity|]. split; [reflexivity|].
    split; [intros key; apply remap_body_keeps_keys|].
    intros Hnot. exfalso. apply Hnot, str_in_iff, Hname.
  - exists o, []. repeat split; auto.
Qed.

Lemma parse_register_adds_one_object_witness :
  exists o' extra,
    parse_register (registers_parse_model Sample.layouts) "main::vendor_id"
      [0x30; 0x00; 2; 0x04; 0x24] []
    = Ok (0%nat, [] ++ o' :: extra)
    /\ addr o' = 0x3000
    /\ len o' = 2
    /\ (forall key, In key ["vendor_id"] -> In key (keys (body o')))
    /\ (~ In "main::vendor_id" REGISTER_NEEDS_PORT_REMAP ->
        o' = {| addr := 0x3000; len := 2; body := [("vendor_id", 0x0424)] |}
        /\ extra = []).
Proof.
  apply (parse_register_adds_one_object (registers_parse_model Sample.layouts)
           "main::vendor_id" [0x30; 0x00; 2; 0x04; 0x24] []
           {| addr := 0x3000; len := 2; body := [("vendor_id", 0x0424)] |}).
  reflexivity.
Defined.

(** X13: a read by address never returns a value: whatever the catalog,
    the device and the arguments, [register_read] without a name raises. *)
Theorem read_by_address_always_raises (mapping : catalog)
    (ctrl_transfer : Z -> Z -> Z -> Z -> Z -> result (list Z))
    (int_from_bytes : list Z -> string -> result Z)
    (registers_parse : list Z -> result DecodedRegister)
    (addr : option Z) (length : Z) (h : heap) :
  exists e,
    register_read mapping ctrl_transfer int_from_bytes registers_parse
      None addr length h = Raise e.
Proof.
  unfold register_read, bindM, lift.
  destruct addr as [a|]; [|eexists; reflexivity].
  destruct (find_name mapping a) as [name|e]; cbn [bind];
    [|eexists; reflexivity].
  destruct (ctrl_transfer _ _ _ _ _) as [data|e]; [|eexists; reflexivity].
  destruct (negb _); eexists; reflexivity.
Qed.

(** X14: when a read by name returns, every stage has succeeded: the name
    is in the catalog with a supported width, the device answered with
    exactly width/8 bytes, which are returned in reverse order, and the
    parser accepted the stream; the reference returned is new and the
    objects already in the store are as they were. *)
Theorem read_by_name_success (mapping : catalog)
    (ctrl_transfer : Z -> Z -> Z -> Z -> Z -> result (list Z))
    (int_from_bytes : list Z -> string -> result Z)
    (registers_parse : list Z -> result DecodedRegister)
    (name : string) (addr : option Z) (length : Z) (h h' : heap)
    (returned : list Z) (r : ref) :
  register_read mapping ctrl_transfer int_from_bytes registers_parse
    (Some name) addr length h = Ok ((returned, r), h') ->
  exists address bits endian data value stream o extra,
    find mapping name = Ok (address, bits, endian)
    /\ supported_width bits
    /\ ctrl_transfer REQ_IN CMD_REG_READ
         (Z.land (address + REG_BASE_DFT) 0xFFFF)
         (Z.shiftr (address + REG_BASE_DFT) 16) (bits / 8) = Ok data
    /\ Z.of_nat (List.length data) = bits / 8
    /\ returned = rev data
    /\ int_from_bytes data endian = Ok value
    /\ encode_stream address bits value = Ok stream
    /\ registers_parse stream = Ok o
    /\ r = List.length h
    /\ h' = h ++ extra
    /\ extra <> [].
Proof.
  intros Hread.
  destruct (find mapping name) as [[[address bits] endian]|e] eqn:Hfind;
    [|unfold register_read, bindM, lift in Hread; rewrite Hfind in Hread;
      discriminate].
  destruct (ctrl_transfer REQ_IN CMD_REG_READ
              (Z.land (address + REG_BASE_DFT) 0xFFFF)
              (Z.shiftr (address + REG_BASE_DFT) 16) (bits / 8))
    as [data|e] eqn:Hctrl;
    [|unfold register_read, bindM, lift in Hread; rewrite Hfind in Hread;
      cbn [bind] in Hread; rewrite Hctrl in Hread; discriminate].
  rewrite (register_read_by_name _ _ _ _ _ _ _ _ _ _ _ _ Hfind Hctrl) in Hread.
  destruct (Z.eqb_spec (bits / 8) (Z.of_nat (List.length data))) as [Hlen|_];
    [|discriminate]. cbn [negb] in Hread.
  unfold bindM at 1, lift in Hread.
  destruct (int_from_bytes data endian) as [value|e] eqn:Hvalue; [|discriminate].
  unfold bindM at 1 in Hread.
  destruct (encode_stream address bits value) as [stream|e] eqn:Hstream;
    [|discriminate].
  unfold bindM at 1 in Hread. rewrite parse_register_outcome in Hread.
  destruct (registers_parse stream) as [o|e] eqn:Hparse; [|discriminate].
  unfold ret in Hread. inversion Hread; subst.
  exists address, bits, endian, data, value, stream, o.
  eexists. repeat split; try eassumption; try reflexivity.
  - apply (find_ok_inv _ _ _ _ _ Hfind).
  - symmetry. exact Hlen.
  - match goal with |- (if ?c then _ else _) <> _ => destruct c end;
      discriminate.
Qed.

Lemma read_by_name_success_witness :
  exists address bits endian data value stream o extra,
    find Sample.mapping "port::device_speed" = Ok (address, bits, endian)
    /\ supported_width bits
    /\ Sample.speed_device REQ_IN CMD_REG_READ
         (Z.land (address + REG_BASE_DFT) 0xFFFF)
         (Z.shiftr (address + REG_BASE_DFT) 16) (bits / 8) = Ok data
    /\ Z.of_nat (List.length data) = bits / 8
    /\ [0x78] = rev data
    /\ int_from_bytes_model data endian = Ok value
    /\ encode_stream address bits value = Ok stream
    /\ registers_parse_model Sample.layouts stream = Ok o
    /\ 0%nat = List.length (@nil DecodedRegister)
    /\ [{| addr := 0x3104; len := 1;
           body := [("port4", 2); ("port3", 1); ("port2", 0); ("port1", 3)] |};
        {| addr := 0x3104; len := 1;
           body := [("port4", 1); ("port3", 3); ("port2", 2); ("port1", 0)] |}]
       = [] ++ extra
    /\ extra <> [].
Proof.
  apply (read_by_name_success Sample.mapping Sample.speed_device
           int_from_bytes_model (registers_parse_model Sample.layouts)
           "port::device_speed" None 1 []).
  reflexivity.
Defined.

(** ** More on the visible field names *)

Lemma str_le_trans (a b c : string) : str_le a b -> str_le b c -> str_le a c.
Proof.
  unfold str_le, String.leb. revert b c.
  induction a as [|x a IH]; intros [|y b] [|z c]; cbn [String.compare];
    try reflexivity; try discriminate.
  unfold Ascii.compare.
  destruct (N.compare_spec (N_of_ascii x) (N_of_ascii y)) as [Hxy|Hxy|Hxy];
    destruct (N.compare_spec (N_of_ascii y) (N_of_ascii z)) as [Hyz|Hyz|Hyz];
    destruct (N.compare_spec (N_of_ascii x) (N_of_ascii z)) as [Hxz|Hxz|Hxz];
    try reflexivity; try discriminate; try lia.
  apply IH.
Qed.

Lemma insert_sorted_in (k x : string) (l : list string) :
  In x (insert_sorted k l) <-> x = k \/ In x l.
Proof.
  induction l as [|y l IH]; simpl.
  - intuition.
  - destruct (String.leb k y); simpl; [intuition|]. rewrite IH. intuition.
Qed.

Lemma sorted_in (x : string) (l : list string) : In x (sorted l) <-> In x l.
Proof.
  induction l as [|y l IH]; simpl; [tauto|].
  rewrite insert_sorted_in, IH. intuition.
Qed.

Lemma insert_sorted_perm (k : string) (l : list string) :
  Permutation (insert_sorted k l) (k :: l).
Proof.
  induction l as [|y l IH]; simpl; [reflexivity|].
  destruct (String.leb k y); [reflexivity|].
  rewrite IH. apply perm_swap.
Qed.

Lemma sorted_perm (l : list string) : Permutation (sorted l) l.
Proof.
  induction l as [|y l IH]; simpl; [reflexivity|].
  rewrite insert_sorted_perm. now constructor.
Qed.

Lemma insert_sorted_strongly (k : string) (l : list string) :
  StronglySorted str_le l -> StronglySorted str_le (insert_sorted k l).
Proof.
  induction 1 as [|y l Hl IH Hy]; simpl.
  - constructor; constructor.
  - destruct (String.leb k y) eqn:E.
    + constructor; [constructor; assumption|].
      constructor; [exact E|].
      apply (Forall_impl _ (fun z Hz => str_le_trans k y z E Hz)), Hy.
    + constructor; [exact IH|].
      apply Forall_forall. intros z Hz. apply insert_sorted_in in Hz.
      destruct Hz as [->|Hz].
      * destruct (String.leb_total y k) as [H|H]; [exact H | congruence].
      * rewrite Forall_forall in Hy. apply Hy, Hz.
Qed.

Lemma sorted_strongly (l : list string) : StronglySorted str_le (sorted l).
Proof.
  induction l as [|y l IH]; simpl; [constructor|].
  apply insert_sorted_strongly, IH.
Qed.

Lemma filter_strongly {A : Type} (R : A -> A -> Prop) (f : A -> bool) (l : list A) :
  StronglySorted R l -> StronglySorted R (filter f l).
Proof.
  induction 1 as [|y l Hl IH Hy]; simpl; [constructor|].
  destruct (f y); [|exact IH].
  constructor; [exact IH|].
  apply Forall_forall. intros z Hz. apply filter_In in Hz.
  rewrite Forall_forall in Hy. apply Hy, Hz.
Qed.

Lemma startswith_underscore (c : ascii) (s : string) :
  startswith (String c s) "_" = Ascii.eqb c "_".
Proof.
  unfold startswith. cbn [String.prefix].
  destruct (ascii_dec "_" c) as [<-|Hne].
  - destruct s; reflexivity.
  - symmetry. apply Ascii.eqb_neq. congruence.
Qed.

Lemma filterM_total (l : list string) :
  (forall key, In key l -> key <> "") ->
  filterM (fun key => c <- str_first key ;; Ok (negb (Ascii.eqb c "_"))) l
  = Ok (filter (fun key => negb (startswith key "_")) l).
Proof.
  induction l as [|key l IH]; intros Hne; [reflexivity|].
  cbn [filterM filter]. rewrite IH by (intros k Hk; apply Hne; now right).
  destruct key as [|c s]; [exfalso; apply (Hne ""); [now left | reflexivity]|].
  cbn [str_first bind]. rewrite startswith_underscore. reflexivity.
Qed.

(** X15: for a body without an empty field name, [register_keys] returns
    the names that do not start with an underscore, each once if the body
    has each once, in ascending order of their code points; names that
    start with [reserved] are among them. *)
Theorem register_keys_lists_sorted_names (parsed : DecodedRegister) :
  (forall key, In key (keys (body parsed)) -> key <> "") ->
  exists l,
    register_keys parsed true = Ok l
    /\ (forall key, In key l <->
                    In key (keys (body parsed)) /\ startswith key "_" = false)
    /\ StronglySorted str_le l
    /\ (NoDup (keys (body parsed)) -> NoDup l).
Proof.
  intros Hne.
  exists (filter (fun key => negb (startswith key "_")) (sorted (keys (body parsed)))).
  split; [|split; [|split]].
  - rewrite register_keys_drops_underscore_only. apply filterM_total.
    intros key Hin. apply Hne, sorted_in, Hin.
  - intros key. rewrite filter_In, sorted_in, negb_true_iff. reflexivity.
  - apply filter_strongly, sorted_strongly.
  - intros ND. apply NoDup_filter.
    apply (Permutation_NoDup (Permutation_sym (sorted_perm _)) ND).
Qed.

Lemma register_keys_lists_sorted_names_witness :
  exists l,
    register_keys Sample.filter_register true = Ok l
    /\ (forall key, In key l <->
                    In key ["a"; "reserved_b"; "_c"; "d"]
                    /\ startswith key "_" = false)
    /\ StronglySorted str_le l
    /\ (NoDup ["a"; "reserved_b"; "_c"; "d"] -> NoDup l).
Proof.
  apply (register_keys_lists_sorted_names Sample.filter_register).
  simpl. intros key [<-|[<-|[<-|[<-|[]]]]]; discriminate.
Defined.

Lemma filterM_raises {A : Type} (f : A -> result bool) (l : list A) (x : A) :
  (forall a e, f a = Raise e -> e = IndexError) ->
  In x l -> f x = Raise IndexError -> filterM f l = Raise IndexError.
Proof.
  intros Honly Hin Hx. induction l as [|a l IH]; [destruct Hin|].
  cbn [filterM]. destruct (f a) as [keep|e] eqn:Ha.
  - cbn [bind]. destruct Hin as [->|Hin]; [congruence|].
    rewrite (IH Hin). reflexivity.
  - cbn [bind]. rewrite (Honly a e Ha). reflexivity.
Qed.

(** X16: a body with an empty field name makes [register_keys] raise
    [IndexError], from the test of [key[0]]. *)
Theorem register_keys_empty_name (parsed : DecodedRegister) :
  In "" (keys (body parsed)) -> register_keys parsed true = Raise IndexError.
Proof.
  intros Hin. rewrite register_keys_drops_underscore_only.
  apply (filterM_raises _ _ "").
  - intros [|c s] e; cbn [str_first bind]; congruence.
  - apply sorted_in, Hin.
  - reflexivity.
Qed.

Lemma register_keys_empty_name_witness :
  register_keys {| addr := 0; len := 1; body := [("port1", 1); ("", 0)] |} true
  = Raise IndexError.
Proof.
  apply register_keys_empty_name. simpl. tauto.
Defined.

(** ** More on the port remap *)

Lemma keys_dict_set {V : Type} (d : list (string * V)) (k : string) (v : V) :
  (In k (keys d) /\ keys (dict_set String.eqb d k v) = keys d)
  \/ (~ In k (keys d) /\ keys (dict_set String.eqb d k v) = keys d ++ [k]).
Proof.
  unfold keys. induction d as [|[k0 v0] d IH]; simpl.
  - right. split; [tauto | reflexivity].
  - destruct (String.eqb k0 k) eqn:E; simpl.
    + apply String.eqb_eq in E. left. split; [now left | reflexivity].
    + apply String.eqb_neq in E.
      destruct IH as [[Hin Heq]|[Hnot Heq]]; rewrite Heq.
      * left. split; [now right | reflexivity].
      * right. split; [intros [H|H]; contradiction | reflexivity].
Qed.

Lemma port_of_in_PORT_MAP (key port : string) :
  str_in key PORT_MAP = true -> port_of key = Ok port -> In port PORT_MAP.
Proof.
  intros Hkey Hport. apply str_in_iff in Hkey. simpl in Hkey.
  destruct Hkey as [<-|[<-|[<-|[<-|[]]]]]; inversion Hport; simpl; tauto.
Qed.

Lemma remap_body_keys (items : list (string * Z)) :
  forall b,
    exists added,
      keys (remap_body items b) = keys b ++ added
      /\ Forall (fun key => In key PORT_MAP /\ ~ In key (keys b)) added.
Proof.
  induction items as [|[key value] items IH]; intros b; cbn [remap_body].
  - exists []. split; [symmetry; apply app_nil_r | constructor].
  - destruct (str_in key PORT_MAP) eqn:Hkey; [|apply IH].
    destruct (port_of key) as [port|e] eqn:Hport; [|apply IH].
    destruct (IH (dict_set String.eqb b port value)) as [added [Heq Hall]].
    destruct (keys_dict_set b port value) as [[Hin Hk]|[Hnot Hk]];
      rewrite Hk in Heq, Hall.
    + exists added. split; assumption.
    + exists (port :: added). split.
      * rewrite Heq, <- app_assoc. reflexivity.
      * constructor.
        -- split; [apply (port_of_in_PORT_MAP key port Hkey Hport) | exact Hnot].
        -- apply Forall_forall. intros k Hk'. rewrite Forall_forall in Hall.
           destruct (Hall k Hk') as [Hp Hn]. split; [exact Hp|].
           intros Hb. apply Hn, in_or_app. now left.
Qed.

(** X17: the remap never removes or reorders a key of the body: the keys
    after the remap are the keys before it, followed by the names of
    [PORT_MAP] that were missing and have been written; a body that has the
    four port names keeps its list of keys. *)
Theorem port_remap_keeps_key_order (name : string) (h : heap) (parsed : ref)
    (o : DecodedRegister) :
  In name REGISTER_NEEDS_PORT_REMAP ->
  nth_error h parsed = Some o ->
  exists h' o' added,
    port_remap name parsed h = Ok (tt, h')
    /\ nth_error h' parsed = Some o'
    /\ keys (body o') = keys (body o) ++ added
    /\ Forall (fun key => In key PORT_MAP /\ ~ In key (keys (body o))) added
    /\ ((forall port, In port PORT_MAP -> In port (keys (body o))) ->
        added = []).
Proof.
  intros Hname Hload.
  assert (Hlt : (parsed < List.length h)%nat)
    by (apply nth_error_Some; congruence).
  destruct (remap_body_keys (body o) (body o)) as [added [Heq Hall]].
  exists (update (h ++ [o]) parsed (with_body o (remap_body (body o) (body o)))),
    (with_body o (remap_body (body o) (body o))), added.
  split; [apply port_remap_run; assumption|].
  split; [apply (nth_error_update_same _ _ o);
          rewrite nth_error_app1 by exact Hlt; exact Hload|].
  split; [exact Heq|]. split; [exact Hall|].
  intros Hfull. destruct added as [|k added]; [reflexivity|].
  inversion Hall as [|? ? [Hk Hnot] _]; subst.
  exfalso. apply Hnot, Hfull, Hk.
Qed.

Lemma port_remap_keeps_key_order_witness :
  exists h' o' added,
    port_remap "port::connection" 0%nat [Sample.connection_register] = Ok (tt, h')
    /\ nth_error h' 0%nat = Some o'
    /\ keys (body o') = ["port1"; "port2"; "port3"; "port4"] ++ added
    /\ Forall (fun key => In key PORT_MAP
                          /\ ~ In key ["port1"; "port2"; "port3"; "port4"]) added
    /\ ((forall port, In port PORT_MAP ->
                      In port ["port1"; "port2"; "port3"; "port4"]) ->
        added = []).
Proof.
  apply (port_remap_keeps_key_order "port::connection"
           [Sample.connection_register] 0%nat Sample.connection_register).
  - simpl. tauto.
  - reflexivity.
Defined.

(** ** Connections *)

Lemma connection_flags_after_remap (o : DecodedRegister) (c1 c2 c3 c4 : Z) :
  Permutation (body o) [("port1", c1); ("port2", c2); ("port3", c3); ("port4", c4)] ->
  (let conn := with_body o (remap_body (body o) (body o)) in
   keys <- register_keys conn true ;;
   mapM (fun key =>
           v <- dict_getitem String.eqb (body conn) key ;;
           Ok (v =? 1)) keys)
  = Ok [c3 =? 1; c1 =? 1; c4 =? 1; c2 =? 1].
Proof.
  intros Hperm. destruct o as [a n b]. cbn [body] in *.
  pose proof (Permutation_length Hperm) as Hlen.
  destruct b as [|x1 [|x2 [|x3 [|x4 [|x5 b]]]]]; try discriminate Hlen.
  assert (ND : NoDup [("port1", c1); ("port2", c2); ("port3", c3); ("port4", c4)])
    by (repeat constructor; simpl; intuition discriminate).
  pose proof (NoDup4_inv _ _ _ _ (Permutation_NoDup (Permutation_sym Hperm) ND))
    as [H12 [H13 [H14 [H23 [H24 H34]]]]].
  assert (H1 : In x1 [("port1", c1); ("port2", c2); ("port3", c3); ("port4", c4)])
    by (apply (Permutation_in _ Hperm); simpl; tauto).
  assert (H2 : In x2 [("port1", c1); ("port2", c2); ("port3", c3); ("port4", c4)])
    by (apply (Permutation_in _ Hperm); simpl; tauto).
  assert (H3 : In x3 [("port1", c1); ("port2", c2); ("port3", c3); ("port4", c4)])
    by (apply (Permutation_in _ Hperm); simpl; tauto).
  assert (H4 : In x4 [("port1", c1); ("port2", c2); ("port3", c3); ("port4", c4)])
    by (apply (Permutation_in _ Hperm); simpl; tauto).
  clear Hperm Hlen ND. simpl in H1, H2, H3, H4.
  destruct H1 as [<-|[<-|[<-|[<-|[]]]]];
    destruct H2 as [<-|[<-|[<-|[<-|[]]]]]; try congruence;
    destruct H3 as [<-|[<-|[<-|[<-|[]]]]]; try congruence;
    destruct H4 as [<-|[<-|[<-|[<-|[]]]]]; try congruence;
    reflexivity.
Qed.

(** X18: when the parsed [port::connection] register has the four fields
    port1..port4, in any order and with any values, [connections] returns
    four flags in the order of the remapped ports: whether raw port3, raw
    port1, raw port4 and raw port2 hold 1. *)
Theorem connections_after_remap (mapping : catalog)
    (ctrl_transfer : Z -> Z -> Z -> Z -> Z -> result (list Z))
    (int_from_bytes : list Z -> string -> result Z)
    (registers_parse : list Z -> result DecodedRegister)
    (address bits value : Z) (endian : string) (data stream : list Z)
    (raw : DecodedRegister) (c1 c2 c3 c4 : Z) (h : heap) :
  find mapping "port::connection" = Ok (address, bits, endian) ->
  ctrl_transfer REQ_IN CMD_REG_READ
    (Z.land (address + REG_BASE_DFT) 0xFFFF)
    (Z.shiftr (address + REG_BASE_DFT) 16) (bits / 8) = Ok data ->
  Z.of_nat (List.length data) = bits / 8 ->
  int_from_bytes data endian = Ok value ->
  encode_stream address bits value = Ok stream ->
  registers_parse stream = Ok raw ->
  Permutation (body raw)
    [("port1", c1); ("port2", c2); ("port3", c3); ("port4", c4)] ->
  connections mapping ctrl_transfer int_from_bytes registers_parse h
  = Ok ([c3 =? 1; c1 =? 1; c4 =? 1; c2 =? 1],
        h ++ [with_body raw (remap_body (body raw) (body raw)); raw]).
Proof.
  intros Hfind Hctrl Hlen Hvalue Hstream Hparse Hperm.
  unfold connections. unfold bindM at 1.
  rewrite (register_read_by_name _ _ _ _ _ _ _ _ _ _ _ _ Hfind Hctrl).
  rewrite <- Hlen, Z.eqb_refl. cbn [negb].
  unfold bindM at 1. rewrite Hvalue. cbn [lift].
  unfold bindM at 1. rewrite Hstream. cbn [lift].
  unfold bindM at 1.
  rewrite (parse_register_run _ _ _ _ raw) by (simpl; tauto || exact Hparse).
  cbn [ret]. unfold bindM at 1, load.
  rewrite nth_error_app2, Nat.sub_diag by apply Nat.le_refl. cbn [nth_error].
  pose proof (connection_flags_after_remap raw c1 c2 c3 c4 Hperm) as Hflags.
  unfold lift. cbv beta zeta in Hflags |- *. rewrite Hflags. reflexivity.
Qed.

Lemma connections_after_remap_witness :
  connections Wired.mapping Wired.device int_from_bytes_model
    (registers_parse_model Wired.layouts) []
  = Ok ([true; true; false; false],
        [{| addr := 0x3194; len := 1;
            body := [("port4", 0); ("port3", 0); ("port2", 1); ("port1", 1)] |};
         {| addr := 0x3194; len := 1;
            body := [("port4", 0); ("port3", 1); ("port2", 0); ("port1", 1)] |}]).
Proof.
  apply (connections_after_remap Wired.mapping Wired.device
           int_from_bytes_model (registers_parse_model Wired.layouts)
           0x3194 8 0x11 "big" [0x11] [0x31; 0x94; 1; 0x11]
           {| addr := 0x3194; len := 1;
              body := [("port4", 0); ("port3", 1); ("port2", 0); ("port1", 1)] |}
           1 0 1 0 []).
  - reflexivity.
  - reflexivity.
  - reflexivity.
  - reflexivity.
  - reflexivity.
  - reflexivity.
  - cbn [body]. apply Permutation_sym.
    exact (Permutation_rev [("port1", 1); ("port2", 0); ("port3", 1); ("port4", 0)]).
Defined.

(** ** More on the current limits *)

Lemma current_limits_of_bytes (read_i2c_block_data : Z -> Z -> result (list Z))
    (v12 v34 : Z) (rest12 rest34 : list Z) :
  read_i2c_block_data ADDR_USC12 UCS2113_CURRENT_LIMIT = Ok (v12 :: rest12) ->
  read_i2c_block_data ADDR_USC34 UCS2113_CURRENT_LIMIT = Ok (v34 :: rest34) ->
  current_limits read_i2c_block_data
  = Ok [limit_of (Z.land v12 7); limit_of (Z.land (Z.shiftr v12 3) 7);
        limit_of (Z.land v34 7); limit_of (Z.land (Z.shiftr v34 3) 7)].
Proof.
  intros H12 H34. unfold current_limits. cbn [foldM].
  rewrite H12. cbn [bind]. rewrite list_getitem_head. cbn [bind].
  rewrite H34. cbn [bind]. rewrite list_getitem_head. cbn [bind app mapM].
  rewrite !(fun v => proj1 (current_map_getitem (Z.land v 7) (three_bits_range v))).
  reflexivity.
Qed.

(** X19: [current_limits] returns a list exactly when each of the two
    chips answers with a block of at least one byte; an empty block raises
    [IndexError] and a failed read raises the error of the read. *)
Theorem current_limits_succeeds_iff
    (read_i2c_block_data : Z -> Z -> result (list Z)) :
  (exists limits, current_limits read_i2c_block_data = Ok limits)
  <-> (exists v12 rest12 v34 rest34,
         read_i2c_block_data ADDR_USC12 UCS2113_CURRENT_LIMIT = Ok (v12 :: rest12)
         /\ read_i2c_block_data ADDR_USC34 UCS2113_CURRENT_LIMIT
            = Ok (v34 :: rest34)).
Proof.
  split.
  - intros [limits H]. unfold current_limits in H. cbn [foldM] in H.
    destruct (read_i2c_block_data ADDR_USC12 UCS2113_CURRENT_LIMIT)
      as [[|v12 rest12]|e]; try discriminate H.
    cbn [bind] in H. rewrite list_getitem_head in H. cbn [bind] in H.
    destruct (read_i2c_block_data ADDR_USC34 UCS2113_CURRENT_LIMIT)
      as [[|v34 rest34]|e]; try discriminate H.
    exists v12, rest12, v34, rest34. split; reflexivity.
  - intros [v12 [rest12 [v34 [rest34 [H12 H34]]]]]. eexists.
    apply (current_limits_of_bytes _ _ _ _ _ H12 H34).
Qed.

Lemma current_limits_succeeds_iff_witness :
  exists limits, current_limits Sample.limit_chips = Ok limits.
Proof.
  apply (proj2 (current_limits_succeeds_iff Sample.limit_chips)).
  exists 0xFF, [], 0x0A, []. split; reflexivity.
Defined.

Lemma low_six_bits (v v' : Z) :
  v mod 64 = v' mod 64 ->
  Z.land v 7 = Z.land v' 7
  /\ Z.land (Z.shiftr v 3) 7 = Z.land (Z.shiftr v' 3) 7.
Proof.
  intros Hmod.
  assert (H63 : Z.land v 63 = Z.land v' 63).
  { change 63 with (Z.ones 6). rewrite !Z.land_ones by lia. exact Hmod. }
  split.
  - change 7 with (Z.land 63 7). rewrite !Z.land_assoc, H63. reflexivity.
  - change 7 with (Z.land (Z.shiftr 63 3) 7).
    rewrite !Z.land_assoc, <- !Z.shiftr_land, H63. reflexivity.
Qed.

(** X20: only the first byte of each block counts, and of it only the low
    six bits: two devices whose first bytes agree modulo 64 have the same
    current limits. *)
Theorem current_limits_low_six_bits
    (read read' : Z -> Z -> result (list Z))
    (v12 v12' v34 v34' : Z) (rest12 rest12' rest34 rest34' : list Z) :
  read ADDR_USC12 UCS2113_CURRENT_LIMIT = Ok (v12 :: rest12) ->
  read ADDR_USC34 UCS2113_CURRENT_LIMIT = Ok (v34 :: rest34) ->
  read' ADDR_USC12 UCS2113_CURRENT_LIMIT = Ok (v12' :: rest12') ->
  read' ADDR_USC34 UCS2113_CURRENT_LIMIT = Ok (v34' :: rest34') ->
  v12 mod 64 = v12' mod 64 ->
  v34 mod 64 = v34' mod 64 ->
  current_limits read = current_limits read'.
Proof.
  intros H12 H34 H12' H34' Hm12 Hm34.
  rewrite (current_limits_of_bytes _ _ _ _ _ H12 H34).
  rewrite (current_limits_of_bytes _ _ _ _ _ H12' H34').
  destruct (low_six_bits _ _ Hm12) as [-> ->].
  destruct (low_six_bits _ _ Hm34) as [-> ->].
  reflexivity.
Qed.

Lemma current_limits_low_six_bits_witness :
  current_limits Sample.limit_chips
  = current_limits (fun i2c_addr _ =>
                      if i2c_addr =? ADDR_USC12 then Ok [0x3F; 7] else Ok [0xCA]).
Proof.
  apply (current_limits_low_six_bits Sample.limit_chips _
           0xFF 0x3F 0x0A 0xCA [] [7] [] []); reflexivity.
Defined.

Lemma append_if_app (c : bool) (s : string) (out : list string) :
  append_if c s out = out ++ (if c then [s] else []).
Proof. destruct c; [reflexivity | symmetry; apply app_nil_r]. Qed.

Lemma raised_cons (status : Z -> Z -> Z) (e : Z * Z * Z * string)
    (l : list (Z * Z * Z * string)) :
  map snd (filter (alert_raised status) (e :: l))
  = (if alert_raised status e then [snd e] else [])
      ++ map snd (filter (alert_raised status) l).
Proof. cbn [filter]. destruct (alert_raised status e); reflexivity. Qed.

Lemma current_alerts_run (read : Z -> Z -> result (list Z)) (status : Z -> Z -> Z) :
  answers_with read status ->
  current_alerts read = Ok (map snd (filter (alert_raised status) alert_table)).
Proof.
  intros Hread.
  destruct (Hread ADDR_USC12 UCS2113_PORT_STATUS) as [r1 E1]; [simpl; tauto ..|].
  destruct (Hread ADDR_USC12 UCS2113_INTERRUPT1) as [r2 E2]; [simpl; tauto ..|].
  destruct (Hread ADDR_USC12 UCS2113_INTERRUPT2) as [r3 E3]; [simpl; tauto ..|].
  destruct (Hread ADDR_USC34 UCS2113_PORT_STATUS) as [r4 E4]; [simpl; tauto ..|].
  destruct (Hread ADDR_USC34 UCS2113_INTERRUPT1) as [r5 E5]; [simpl; tauto ..|].
  destruct (Hread ADDR_USC34 UCS2113_INTERRUPT2) as [r6 E6]; [simpl; tauto ..|].
  unfold current_alerts. cbn [foldM]. unfold chip_alerts.
  rewrite E1, E2, E3. cbn [bind]. rewrite !list_getitem_head. cbn [bind].
  rewrite !get_bit_testbit by lia. cbn [bind]. cbv zeta.
  rewrite E4, E5, E6. cbn [bind]. rewrite !list_getitem_head. cbn [bind].
  rewrite !get_bit_testbit by lia. cbn [bind]. cbv zeta.
  f_equal. rewrite !append_if_app. unfold alert_table.
  rewrite !raised_cons. cbn [filter map].
  rewrite <- !app_assoc. rewrite app_nil_r. reflexivity.
Qed.

Lemma alert_texts_NoDup : NoDup (map snd alert_table).
Proof.
  unfold alert_table. cbn [map snd].
  repeat (constructor; [cbn [In]; intuition discriminate|]). constructor.
Qed.

Lemma NoDup_map_filter {A B : Type} (g : A -> B) (f : A -> bool) (l : list A) :
  NoDup (map g l) -> NoDup (map g (filter f l)).
Proof.
  induction l as [|a l IH]; cbn [map filter]; intros ND; [constructor|].
  inversion ND as [|? ? Hnot ND']; subst.
  destruct (f a); [|exact (IH ND')].
  cbn [map]. constructor; [|exact (IH ND')].
  intros Hin. apply Hnot. apply in_map_iff in Hin.
  destruct Hin as [x [Hx Hin]]. apply filter_In in Hin.
  apply in_map_iff. exists x. tauto.
Qed.

(** X21: when each chip answers each of its three status reads,
    [current_alerts] returns the texts whose bit is set, and no other: a
    text is in the list exactly when the table has it with a chip, a
    register and a bit that is set in the byte read there.  No text comes
    twice, so there are at most 38 of them. *)
Theorem current_alerts_are_the_set_bits (read : Z -> Z -> result (list Z))
    (status : Z -> Z -> Z) :
  answers_with read status ->
  exists out,
    current_alerts read = Ok out
    /\ (forall alert,
          In alert out <->
          exists i2c_addr reg bit,
            In (i2c_addr, reg, bit, alert) alert_table
            /\ Z.testbit (status i2c_addr reg) bit = true)
    /\ NoDup out
    /\ (List.length out <= 38)%nat.
Proof.
  intros Hread. eexists. split; [apply (current_alerts_run read status Hread)|].
  split; [|split].
  - intros alert. rewrite in_map_iff. split.
    + intros [[[[a r] bit] text] [Htext Hin]]. cbn [snd] in Htext. subst text.
      apply filter_In in Hin. destruct Hin as [Hin Hset].
      exists a, r, bit. split; [exact Hin | exact Hset].
    + intros [a [r [bit [Hin Hset]]]]. exists (a, r, bit, alert).
      split; [reflexivity|]. apply filter_In. split; [exact Hin | exact Hset].
  - apply NoDup_map_filter, alert_texts_NoDup.
  - rewrite length_map.
    apply (Nat.le_trans _ (List.length alert_table)); [apply filter_length_le|].
    apply Nat.le_refl.
Qed.

(** X22: the bits that the table does not name are ignored, among them
    bit 2 of the second interrupt register: two devices that agree on the
    bits of the table give the same alerts. *)
Theorem current_alerts_ignore_other_bits (read read' : Z -> Z -> result (list Z))
    (status status' : Z -> Z -> Z) :
  answers_with read status ->
  answers_with read' status' ->
  (forall i2c_addr reg bit alert,
     In (i2c_addr, reg, bit, alert) alert_table ->
     Z.testbit (status i2c_addr reg) bit = Z.testbit (status' i2c_addr reg) bit) ->
  current_alerts read = current_alerts read'.
Proof.
  intros Hread Hread' Hsame.
  rewrite (current_alerts_run read status Hread).
  rewrite (current_alerts_run read' status' Hread').
  f_equal. f_equal. apply filter_ext_in.
  intros [[[a r] bit] text] Hin. cbn [alert_raised]. apply (Hsame a r bit text Hin).
Qed.

Lemma answers_with_constant (v : Z) :
  answers_with (fun _ _ => Ok [v]) (fun _ _ => v).
Proof. intros a r _ _. exists []. reflexivity. Qed.

Lemma current_alerts_are_the_set_bits_witness :
  exists out,
    current_alerts (fun _ _ => Ok [0x80]) = Ok out
    /\ (forall alert,
          In alert out <->
          exists i2c_addr reg bit,
            In (i2c_addr, reg, bit, alert) alert_table
            /\ Z.testbit 0x80 bit = true)
    /\ NoDup out
    /\ (List.length out <= 38)%nat.
Proof.
  apply (current_alerts_are_the_set_bits (fun _ _ => Ok [0x80]) (fun _ _ => 0x80)).
  apply answers_with_constant.
Defined.

Lemma current_alerts_ignore_other_bits_witness :
  current_alerts (fun _ reg => Ok [if reg =? UCS2113_INTERRUPT2 then 0x04 else 0])
  = current_alerts (fun _ _ => Ok [0]).
Proof.
  apply (current_alerts_ignore_other_bits _ _
           (fun _ reg => if reg =? UCS2113_INTERRUPT2 then 0x04 else 0)
           (fun _ _ => 0)).
  - intros a r _ _. exists []. reflexivity.
  - apply answers_with_constant.
  - intros a r bit alert Hin. unfold alert_table in Hin. cbn [In] in Hin.
    repeat (destruct Hin as [Hin|Hin]; [inversion Hin; reflexivity|]).
    destruct Hin.
Defined.

(** ** Printing *)

Lemma dict_set_new {V : Type} (d : list (string * V)) (k : string) (v : V) :
  ~ In k (keys d) -> dict_set String.eqb d k v = d ++ [(k, v)].
Proof.
  unfold keys. induction d as [|[k0 v0] d IH]; simpl; intros Hnot; [reflexivity|].
  destruct (String.eqb k0 k) eqn:E.
  - apply String.eqb_eq in E. tauto.
  - rewrite IH by tauto. reflexivity.
Qed.

Lemma visible_items_run (items : list (string * Z)) :
  forall meta,
    (forall key, In key (keys items) -> key <> "") ->
    NoDup (keys meta ++ keys items) ->
    visible_items items meta
    = Ok (meta ++ filter (fun item => shown (fst item)) items).
Proof.
  induction items as [|[key value] items IH]; intros meta Hne ND.
  - cbn [visible_items filter]. rewrite app_nil_r. reflexivity.
  - cbn [visible_items filter fst]. unfold shown at 1.
    assert (Hne' : forall k, In k (keys items) -> k <> "")
      by (intros k Hk; apply Hne; now right).
    destruct (startswith key "reserved") eqn:Hres; cbn [bind negb andb].
    + apply IH; [exact Hne'|].
      unfold keys in *. cbn [map fst] in ND. apply NoDup_remove_1 in ND. exact ND.
    + destruct key as [|c s]; [exfalso; apply (Hne ""); [now left | reflexivity]|].
      cbn [str_first bind]. rewrite startswith_underscore.
      destruct (Ascii.eqb c "_"); cbn [negb].
      * apply IH; [exact Hne'|].
        unfold keys in *. cbn [map fst] in ND. apply NoDup_remove_1 in ND. exact ND.
      * rewrite dict_set_new.
        -- rewrite IH; [rewrite <- app_assoc; reflexivity | exact Hne' |].
           unfold keys in *. cbn [map fst] in ND. rewrite map_app. cbn [map fst].
           rewrite <- app_assoc. exact ND.
        -- unfold keys in *. cbn [map fst] in ND. apply NoDup_remove_2 in ND.
           intros Hin. apply ND, in_or_app. now left.
Qed.

Lemma field_lines (meta : list (string * Z)) :
  NoDup (keys meta) ->
  forall l,
    (forall key, In key l -> In key (keys meta)) ->
    exists items,
      mapM (fun key =>
              value <- dict_getitem String.eqb meta key ;;
              Ok ("       " ++ key ++ " : " ++ hex value)%string) l
      = Ok (map field_line items)
      /\ map fst items = l
      /\ (forall item, In item items -> In item meta).
Proof.
  intros ND. induction l as [|key l IH]; intros Hin.
  - exists []. repeat split. intros item [].
  - destruct IH as [items [Hrun [Hkeys Hsub]]];
      [intros k Hk; apply Hin; now right|].
    assert (Hkey : In key (keys meta)) by (apply Hin; now left).
    unfold keys in Hkey. apply in_map_iff in Hkey.
    destruct Hkey as [[k v] [Hk Hitem]]. cbn [fst] in Hk. subst k.
    exists ((key, v) :: items). cbn [mapM map fst].
    rewrite Hrun.
    unfold dict_getitem. rewrite (in_dict_get meta key v ND Hitem). cbn [bind].
    repeat split.
    + rewrite Hkeys. reflexivity.
    + intros item [<-|Hi]; [exact Hitem | apply Hsub, Hi].
Qed.

(** X23: for a dictionary body without an empty field name and an address
    the catalog knows, [print_register] prints the address in upper-case
    hexadecimal with the name of the register, then one line per field
    whose name starts neither with [reserved] nor with an underscore, with
    its value in hexadecimal, in ascending order of the names. *)
Theorem print_register_lines (mapping : catalog) (data : DecodedRegister)
    (name : string) :
  (forall key, In key (keys (body data)) -> key <> "") ->
  NoDup (keys (body data)) ->
  find_name mapping (addr data) = Ok name ->
  exists items,
    print_register mapping data
    = Ok (header_line data name :: map field_line items)
    /\ map fst items = sorted (filter shown (keys (body data)))
    /\ (forall item, In item items <-> In item (body data) /\ shown (fst item) = true).
Proof.
  intros Hne ND Hname. unfold print_register.
  rewrite visible_items_run by (cbn [keys map app]; assumption).
  cbn [bind app]. rewrite Hname. cbn [bind].
  set (meta := filter (fun item => shown (fst item)) (body data)).
  assert (Hkeys : keys meta = filter shown (keys (body data))).
  { unfold meta, keys. clear. induction (body data) as [|[k v] b IH];
      [reflexivity|]. cbn [filter map fst]. destruct (shown k); cbn [map fst];
      rewrite IH; reflexivity. }
  assert (NDm : NoDup (keys meta)) by (rewrite Hkeys; apply NoDup_filter, ND).
  destruct (field_lines meta NDm (sorted (keys meta)))
    as [items [Hrun [Hfst Hsub]]]; [intros key; apply sorted_in|].
  exists items. rewrite Hrun. cbn [bind]. split; [reflexivity|].
  split; [rewrite Hfst, Hkeys; reflexivity|].
  intros item. split.
  - intros Hin. apply Hsub in Hin. unfold meta in Hin. apply filter_In in Hin.
    exact Hin.
  - intros [Hin Hshown].
    assert (Hm : In item meta) by (apply filter_In; split; assumption).
    assert (Hk : In (fst item) (map fst items)).
    { rewrite Hfst. apply sorted_in. unfold keys. apply in_map, Hm. }
    apply in_map_iff in Hk. destruct Hk as [item' [Hfst' Hin']].
    assert (Hm' : In item' meta) by (apply Hsub, Hin').
    replace item with item'; [exact Hin'|].
    destruct item as [k v], item' as [k' v']. cbn [fst] in Hfst'. subst k'.
    f_equal.
    pose proof (in_dict_get meta k v NDm Hm) as H1.
    pose proof (in_dict_get meta k v' NDm Hm') as H2. congruence.
Qed.

Lemma print_register_lines_witness :
  exists items,
    print_register Sample.mapping
      {| addr := 0x3104; len := 1;
         body := [("port4", 10); ("reserved1", 3); ("_io", 0); ("port1", 255)] |}
    = Ok ("0x3104 port::device_speed" :: map field_line items)
    /\ map fst items = ["port1"; "port4"]
    /\ (forall item,
          In item items <->
          In item [("port4", 10); ("reserved1", 3); ("_io", 0); ("port1", 255)]
          /\ shown (fst item) = true).
Proof.
  apply (print_register_lines Sample.mapping
           {| addr := 0x3104; len := 1;
              body := [("port4", 10); ("reserved1", 3); ("_io", 0); ("port1", 255)] |}
           "port::device_speed").
  - simpl. intros key [<-|[<-|[<-|[<-|[]]]]]; discriminate.
  - repeat constructor; simpl; intuition discriminate.
  - reflexivity.
Defined.

(** X24: [print_register] prints nothing and raises the unknown-address
    error when the catalog has no entry for the address of the register
    (the body having no empty field name). *)
Theorem print_register_unknown_address (mapping : catalog)
    (data : DecodedRegister) :
  (forall key, In key (keys (body data)) -> key <> "") ->
  NoDup (keys (body data)) ->
  ~ In (addr data) (held entry_address mapping) ->
  print_register mapping data
  = Raise (ValueError (UnknownRegisterAddress (addr data))).
Proof.
  intros Hne ND Hnot. unfold print_register.
  rewrite visible_items_run by (cbn [keys map app]; assumption).
  cbn [bind].
  assert (Hname : find_name mapping (addr data)
                  = Raise (ValueError (UnknownRegisterAddress (addr data)))).
  { clear -Hnot. induction mapping as [|[n0 [[a0 b0] e0]] mapping IH];
      [reflexivity|].
    cbn [find_name]. unfold held, entry_address in Hnot. simpl in Hnot.
    destruct (Z.eqb_spec a0 (addr data)) as [Heq|_]; [tauto|].
    apply IH. unfold held, entry_address. tauto. }
  rewrite Hname. reflexivity.
Qed.

Lemma print_register_unknown_address_witness :
  print_register Sample.mapping
    {| addr := 0x3105; len := 1; body := [("port4", 10)] |}
  = Raise (ValueError (UnknownRegisterAddress 0x3105)).
Proof.
  apply (print_register_unknown_address Sample.mapping
           {| addr := 0x3105; len := 1; body := [("port4", 10)] |}).
  - simpl. intros key [<-|[]]. discriminate.
  - repeat constructor; simpl; tauto.
  - unfold held. simpl. intuition discriminate.
Defined.

(** ** The build records every case, whatever its width *)

Lemma key_in_dict_set {V : Type} (d : list (string * V)) (k : string) (v : V) :
  In k (keys (dict_set String.eqb d k v)).
Proof.
  unfold keys. induction d as [|[k0 v0] d IH]; simpl; [now left|].
  destruct (String.eqb k0 k) eqn:E; simpl.
  - apply String.eqb_eq in E. now left.
  - now right.
Qed.

Lemma in_keys_dict_get {V : Type} (d : list (string * V)) (k : string) :
  In k (keys d) -> exists v, dict_get String.eqb d k = Some v.
Proof.
  unfold keys. induction d as [|[k0 v0] d IH]; simpl; [intros []|].
  destruct (String.eqb k0 k) eqn:E; [eexists; reflexivity|].
  intros [H|H]; [|exact (IH H)].
  subst k0. rewrite String.eqb_refl in E. discriminate.
Qed.

Lemma invert_from_keys (cases : list (Z * string)) :
  forall (acc : list (string * Z)) key,
    In key (map snd cases) \/ In key (keys acc) ->
    In key
      (keys (fold_left (fun acc kv => dict_set String.eqb acc (snd kv) (fst kv))
               cases acc)).
Proof.
  induction cases as [|[a0 n0] cases IH]; cbn [fold_left map snd fst];
    intros acc key Hin.
  - destruct Hin as [[]|Hin]. exact Hin.
  - apply IH. destruct Hin as [[<-|Hin]|Hin].
    + right. apply key_in_dict_set.
    + now left.
    + right. apply keys_dict_set_incl, Hin.
Qed.

(** The comprehension succeeds exactly when the width and the byte order
    of every item can be computed. *)
Lemma build_entries_succeeds (def : definition) (items : list (string * Z)) :
  forall acc,
    (exists mapping, build_entries def items acc = Ok mapping)
    <-> (forall key address,
           In (key, address) items ->
           exists bits endian,
             get_register_length def key = Ok bits
             /\ get_register_endian def key = Ok endian).
Proof.
  induction items as [|[k v] items IH]; intros acc; cbn [build_entries].
  - split; [intros _ key address [] | intros _; eexists; reflexivity].
  - split.
    + intros [mapping Hrun] key address Hin.
      destruct (get_register_length def k) as [bits|] eqn:Hlen; [|discriminate].
      destruct (get_register_endian def k) as [endian|] eqn:Hend; [|discriminate].
      cbn [bind] in Hrun. destruct Hin as [Heq|Hin].
      * inversion Heq; subst. exists bits, endian. split; assumption.
      * apply (proj1 (IH _) (ex_intro _ mapping Hrun) key address Hin).
    + intros Hall.
      destruct (Hall k v (or_introl eq_refl)) as [bits [endian [-> ->]]].
      cbn [bind]. apply IH. intros key address Hin.
      apply (Hall key address). now right.
Qed.

Lemma build_entries_names (def : definition) (items : list (string * Z)) :
  forall acc mapping,
    build_entries def items acc = Ok mapping ->
    forall name,
      In name (keys acc)
      \/ (exists key address,
            In (key, address) items /\ name = replace key "usb4715_" "") ->
      In name (keys mapping).
Proof.
  induction items as [|[k v] items IH]; cbn [build_entries];
    intros acc mapping Hrun name Hin.
  - inversion Hrun; subst. destruct Hin as [Hin|[key [a [[] _]]]]. exact Hin.
  - destruct (get_register_length def k) as [bits|]; [|discriminate].
    destruct (get_register_endian def k) as [endian|]; [|discriminate].
    cbn [bind] in Hrun. apply (IH _ _ Hrun).
    destruct Hin as [Hin|[key [a [[Heq|Hin] Hname]]]].
    + left. apply keys_dict_set_incl, Hin.
    + inversion Heq; subst. left. apply key_in_dict_set.
    + right. exists key, a. split; assumption.
Qed.

(** C5, as the code has it: the build looks at no width.  It succeeds
    exactly when the width and the byte order of every case of the table
    can be computed; it then holds an entry under the name of every case,
    and every entry has the address of a case with that name and the sum of
    the field widths of its type, whatever that sum is.  The width is
    checked by [find]: an entry is returned only when its width is 8, 16,
    24 or 32, and another width raises for that name. *)
Theorem width_checked_by_find (def : definition) (cases : list (Z * string)) :
  register_cases def = Ok cases ->
  ((exists mapping, build_mapping def = Ok mapping)
   <-> (forall address key,
          In (address, key) cases ->
          exists bits endian,
            get_register_length def key = Ok bits
            /\ get_register_endian def key = Ok endian))
  /\ (forall mapping,
        build_mapping def = Ok mapping ->
        (forall address key,
           In (address, key) cases ->
           exists entry, dict_get String.eqb mapping (replace key "usb4715_" "")
                         = Some entry)
        /\ (forall name address bits endian,
              dict_get String.eqb mapping name = Some (address, bits, endian) ->
              exists key,
                In (address, key) cases
                /\ name = replace key "usb4715_" ""
                /\ get_register_length def key = Ok bits)
        /\ (forall name address bits endian,
              find mapping name = Ok (address, bits, endian) ->
              supported_width bits)
        /\ (forall name address bits endian,
              dict_get String.eqb mapping name = Some (address, bits, endian) ->
              ~ supported_width bits ->
              find mapping name = Raise (ValueError (RegisterHasBits name bits)))).
Proof.
  intros Hcases. unfold build_mapping. rewrite Hcases. cbn [bind]. split.
  - rewrite build_entries_succeeds. split.
    + intros Hall address key Hin.
      assert (Hkey : In key (keys (invert cases))).
      { apply invert_from_keys. left.
        change key with (snd (address, key)). apply in_map, Hin. }
      unfold keys in Hkey. apply in_map_iff in Hkey.
      destruct Hkey as [[k a] [Hk Hitem]]. cbn [fst] in Hk. subst k.
      apply (Hall key a Hitem).
    + intros Hall key address Hin. unfold invert in Hin.
      apply in_invert_from in Hin. destruct Hin as [[]|Hin].
      apply (Hall address key Hin).
  - intros mapping Hbuild. split; [|split; [|split]].
    + intros address key Hin. apply in_keys_dict_get.
      apply (build_entries_names def _ _ _ Hbuild). right.
      assert (Hkey : In key (keys (invert cases))).
      { apply invert_from_keys. left.
        change key with (snd (address, key)). apply in_map, Hin. }
      unfold keys in Hkey. apply in_map_iff in Hkey.
      destruct Hkey as [[k a] [Hk Hitem]]. cbn [fst] in Hk. subst k.
      exists key, a. split; [exact Hitem | reflexivity].
    + intros name address bits endian Hget. apply dict_get_in in Hget.
      destruct (build_entries_sound def _ _ _ Hbuild _ _ _ _ Hget)
        as [[]|[key [Hitem [Hname [Hlen _]]]]].
      exists key. split; [|split; assumption].
      unfold invert in Hitem. apply in_invert_from in Hitem.
      destruct Hitem as [[]|Hitem]. exact Hitem.
    + intros name address bits endian Hfind.
      apply find_ok_inv in Hfind. apply Hfind.
    + intros name address bits endian Hget Hbad.
      unfold find, dict_contains, dict_getitem. rewrite Hget. cbn [bind].
      destruct (existsb (Z.eqb bits) [8; 16; 24; 32]) eqn:E; [|reflexivity].
      exfalso. apply Hbad, supported_width_test, E.
Qed.

Lemma width_checked_by_find_witness :
  (exists mapping, build_mapping Sample.documents = Ok mapping)
  /\ (exists entry,
        dict_get String.eqb
          [("main::odd", (0x3000, 12, "little"));
           ("port::device_speed", (0x3104, 8, "big"))]
          (replace "usb4715_main::odd" "usb4715_" "") = Some entry)
  /\ find [("main::odd", (0x3000, 12, "little"));
           ("port::device_speed", (0x3104, 8, "big"))] "main::odd"
     = Raise (ValueError (RegisterHasBits "main::odd" 12)).
Proof.
  pose (cases := [(0x3000, "usb4715_main::odd");
                  (0x3104, "usb4715_port::device_speed")]).
  split; [|split].
  - apply (proj1 (width_checked_by_find Sample.documents cases eq_refl)).
    intros address key Hin. cbn [In cases] in Hin.
    destruct Hin as [Heq|[Heq|[]]]; inversion Heq; subst;
      eexists; eexists; split; reflexivity.
  - apply (proj1 (proj2 (width_checked_by_find Sample.documents cases eq_refl)
                    _ eq_refl) 0x3000 "usb4715_main::odd").
    cbn [In cases]. now left.
  - apply (proj2 (proj2 (proj2 (proj2 (width_checked_by_find Sample.documents
                                         cases eq_refl) _ eq_refl)))
             "main::odd" 0x3000 12 "little").
    + reflexivity.
    + unfold supported_width. simpl. lia.
Defined.
